(** * Single-slide editor: the scene document engine of [src/app/build/page.tsx]

    A shallow embedding of the editor's document state and of the callbacks
    that mutate it: the history (commit / undo / redo), the shape
    constructors, [updateShape], the viewport (fit-to-screen and
    pointer-anchored zoom), grid snapping, alignment, the layer operations and
    the transform-end handlers of the shape nodes; then the keyboard, the
    pointer gestures on the stage, the inspector and the layer list, and the
    events of a whole session.

    Modelling conventions.
    - A JavaScript [number] is an exact rational ([Q]); rounding error, NaN
      and infinities of IEEE doubles are outside the model.  Numeric results
      are compared with [==] ([Qeq]).
    - React state cells ([useState]) are the fields of one record, [Editor];
      a callback is a function [Editor -> Editor].  A state updater nested in
      another one (as in [commit] and [undo]) sees the state of the same
      render, so the whole callback is one transition.
    - Arrays are lists in the array's order: index 0 first. *)

From Stdlib Require Import QArith Qminmax Qround Lqa ZArith Lia.
From stdpp Require Import base list strings.

(** ** JavaScript array and number helpers *)

Module Js.

(** The relative index of [Array.prototype.slice]: a negative index counts
    from the end, and the result is clipped to [0 .. len]. *)
Definition rel_index (len : nat) (i : Z) : nat :=
  if (i <? 0)%Z then Z.to_nat (Z.max (Z.of_nat len + i) 0)
  else Nat.min (Z.to_nat i) len.

(** [l.slice(start, end)]; [end_ = None] is the one-argument call. *)
Definition slice {A} (l : list A) (start : Z) (end_ : option Z) : list A :=
  let len := length l in
  let k := rel_index len start in
  let final := match end_ with
               | None => len
               | Some e => rel_index len e
               end in
  take (final - k) (drop k l).

(** [l.findIndex(p)]: the first index whose element satisfies [p], or -1. *)
Fixpoint findIndex {A} (p : A -> bool) (l : list A) : Z :=
  match l with
  | [] => (-1)%Z
  | a :: l' =>
      if p a then 0%Z
      else let r := findIndex p l' in
           if (r <? 0)%Z then (-1)%Z else (r + 1)%Z
  end.

(** [l.find(p)]: the first element satisfying [p], or undefined. *)
Fixpoint find {A} (p : A -> bool) (l : list A) : option A :=
  match l with
  | [] => None
  | a :: l' => if p a then Some a else find p l'
  end.

(** [Math.round]: the nearest integer, halves rounded towards +infinity. *)
Definition Math_round (n : Q) : Q := inject_Z (Qfloor (n + (1 # 2))%Q).

(** [structuredClone]: a deep copy; on immutable values, the value itself. *)
Definition structuredClone {A} (v : A) : A := v.

(** [a ?? b] *)
Definition nullish {A} (a : option A) (b : A) : A :=
  match a with Some v => v | None => b end.

End Js.

(** [const clamp = (v, min, max) => Math.max(min, Math.min(max, v))] *)
Definition clamp (v min max : Q) : Q := Qmax min (Qmin max v).

Definition SLIDE_W : Q := 1920%Q.
Definition SLIDE_H : Q := 1080%Q.

(** ** Shape model *)

(** The variant part of a [Shape]: the [kind] tag and the fields of that kind. *)
Inductive Body :=
| rect (width height : Q) (fill : string) (stroke : option string)
       (strokeWidth cornerRadius : option Q)
| circle (radius : Q) (fill : string) (stroke : option string)
         (strokeWidth : option Q)
| text (text_ : string) (fontSize : Q) (width : option Q) (fill : string)
| image (width height : Q) (src : string).

(** [BaseShape & { kind; ... }] *)
Module Shape.
Record t := mk {
  id : string;
  x : Q;
  y : Q;
  rotation : Q;
  name : option string;
  locked : option bool;
  hidden : option bool;
  body : Body
}.
End Shape.

(** [Partial<Shape>] as the call sites build it: any subset of the fields other
    than [id] and [kind], which no call site passes. *)
Module Partial.
Record t := mk {
  x : option Q;
  y : option Q;
  rotation : option Q;
  name : option string;
  locked : option bool;
  hidden : option bool;
  width : option Q;
  height : option Q;
  radius : option Q;
  fill : option string;
  stroke : option string;
  strokeWidth : option Q;
  cornerRadius : option Q;
  text : option string;
  fontSize : option Q
}.
End Partial.

(** One key of [{ ...s, ...partial }]: the partial's value when it has the key. *)
Definition over {A} (o : option A) (d : A) : A :=
  match o with Some v => v | None => d end.

Definition over_opt {A} (o d : option A) : option A :=
  match o with Some v => Some v | None => d end.

(** The kind-specific keys of [{ ...s, ...partial } as Shape].  A key that is
    not a field of the shape's kind would be an extra property that the typed
    program never reads; the record keeps the fields of the kind only. *)
Definition spread_body (b : Body) (p : Partial.t) : Body :=
  match b with
  | rect w h f st sw cr =>
      rect (over (Partial.width p) w) (over (Partial.height p) h)
           (over (Partial.fill p) f) (over_opt (Partial.stroke p) st)
           (over_opt (Partial.strokeWidth p) sw)
           (over_opt (Partial.cornerRadius p) cr)
  | circle r f st sw =>
      circle (over (Partial.radius p) r) (over (Partial.fill p) f)
             (over_opt (Partial.stroke p) st)
             (over_opt (Partial.strokeWidth p) sw)
  | text t fs w f =>
      text (over (Partial.text p) t) (over (Partial.fontSize p) fs)
           (over_opt (Partial.width p) w) (over (Partial.fill p) f)
  | image w h src =>
      image (over (Partial.width p) w) (over (Partial.height p) h) src
  end.

(** [{ ...s, ...partial } as Shape] *)
Definition spread (s : Shape.t) (p : Partial.t) : Shape.t :=
  {| Shape.id := Shape.id s;
     Shape.x := over (Partial.x p) (Shape.x s);
     Shape.y := over (Partial.y p) (Shape.y s);
     Shape.rotation := over (Partial.rotation p) (Shape.rotation s);
     Shape.name := over_opt (Partial.name p) (Shape.name s);
     Shape.locked := over_opt (Partial.locked p) (Shape.locked s);
     Shape.hidden := over_opt (Partial.hidden p) (Shape.hidden s);
     Shape.body := spread_body (Shape.body s) p |}.

(** ** Editor state *)

Record Point := { px : Q; py : Q }.

(** [container.size] *)
Record Size := { size_width : Q; size_height : Q }.

(** What the program reads of the Konva stage: the pointer position, if any. *)
Record Stage := { getPointerPosition : option Point }.

(** A document snapshot: the shapes in paint order. *)
Abbreviation Snapshot := (list Shape.t).

(** The [useState] cells and refs of [SingleSlideEditorMVP] that the document
    engine reads or writes. *)
Record Editor := {
  shapes : Snapshot;
  selectedId : option string;
  scale : Q;
  offset : Point;
  history : list Snapshot;
  future : list Snapshot;
  gridEnabled : bool;
  gridSize : Q;
  containerSize : Size;
  stageRef : option Stage
}.

Definition setSelectedId (v : option string) (st : Editor) : Editor :=
  {| shapes := shapes st; selectedId := v; scale := scale st;
     offset := offset st; history := history st; future := future st;
     gridEnabled := gridEnabled st; gridSize := gridSize st;
     containerSize := containerSize st; stageRef := stageRef st |}.

(** [setShapes], [setHistory] and [setFuture] of one callback, together. *)
Definition setDocument (s : Snapshot) (h f : list Snapshot) (st : Editor) : Editor :=
  {| shapes := s; selectedId := selectedId st; scale := scale st;
     offset := offset st; history := h; future := f;
     gridEnabled := gridEnabled st; gridSize := gridSize st;
     containerSize := containerSize st; stageRef := stageRef st |}.

(** [setScale] and [setOffset] of one callback, together. *)
Definition setViewport (sc : Q) (off : Point) (st : Editor) : Editor :=
  {| shapes := shapes st; selectedId := selectedId st; scale := sc;
     offset := off; history := history st; future := future st;
     gridEnabled := gridEnabled st; gridSize := gridSize st;
     containerSize := containerSize st; stageRef := stageRef st |}.

(** [setSize] of [useResizeObserver]. *)
Definition setContainerSize (sz : Size) (st : Editor) : Editor :=
  {| shapes := shapes st; selectedId := selectedId st; scale := scale st;
     offset := offset st; history := history st; future := future st;
     gridEnabled := gridEnabled st; gridSize := gridSize st;
     containerSize := sz; stageRef := stageRef st |}.

(** The stage ref once the [Stage] is mounted. *)
Definition setStageRef (sg : option Stage) (st : Editor) : Editor :=
  {| shapes := shapes st; selectedId := selectedId st; scale := scale st;
     offset := offset st; history := history st; future := future st;
     gridEnabled := gridEnabled st; gridSize := gridSize st;
     containerSize := containerSize st; stageRef := sg |}.

(** ** History *)

(** [type ShapeUpdater = (prev: Shape[]) => Shape[]] *)
Definition ShapeUpdater := Snapshot -> Snapshot.

(** The argument of [commit]: [Shape[] | ShapeUpdater]. *)
Inductive CommitArg :=
| Value (next : Snapshot)
| Updater (next : ShapeUpdater).

Definition commit (next : CommitArg) (st : Editor) : Editor :=
  let prev := shapes st in
  let resolved := match next with
                  | Updater f => f prev
                  | Value v => v
                  end in
  setDocument (Js.structuredClone resolved)
              (Js.slice (history st) (-49) None ++ [prev])
              []
              st.

Definition undo (st : Editor) : Editor :=
  let h := history st in
  setSelectedId None
    (if (length h =? 0)%nat then st
     else match h !! (length h - 1)%nat with
          | Some top =>
              setDocument top
                          (Js.slice h 0 (Some (-1)%Z))
                          (Js.slice (shapes st :: future st) 0 (Some 50%Z))
                          st
          | None => st
          end).

Definition redo (st : Editor) : Editor :=
  let f := future st in
  setSelectedId None
    (match f with
     | [] => st
     | first :: _ =>
         setDocument first
                     (Js.slice (history st ++ [shapes st]) (-50) None)
                     (Js.slice f 1 None)
                     st
     end).

(** The toolbar's [disabled={history.length === 0}] and
    [disabled={future.length === 0}]. *)
Definition canUndo (st : Editor) : bool := negb (length (history st) =? 0)%nat.
Definition canRedo (st : Editor) : bool := negb (length (future st) =? 0)%nat.

(** ** Adding shapes *)

(** [uid(prefix)]: the prefix, an underscore and seven base-36 digits of
    [Math.random()].  The random digits are the argument [rnd]. *)
Definition uid (prefix rnd : string) : string := prefix +:+ "_" +:+ rnd.

Definition shape_id_is (i : string) (s : Shape.t) : bool :=
  String.eqb (Shape.id s) i.

(** The four add callbacks share [commit((prev) => [...prev, s]); setSelectedId(s.id)]. *)
Definition addShape_updater (s : Shape.t) : ShapeUpdater :=
  fun prev => prev ++ [s].

Definition addShape (s : Shape.t) (st : Editor) : Editor :=
  setSelectedId (Some (Shape.id s))
    (commit (Updater (addShape_updater s)) st).

Definition newRect (rnd : string) : Shape.t :=
  {| Shape.id := uid "rect" rnd; Shape.name := Some "Rectangle";
     Shape.x := 200; Shape.y := 150; Shape.rotation := 0;
     Shape.locked := None; Shape.hidden := None;
     Shape.body := rect 320 180 "#ffd166" (Some "#111827") (Some 2%Q) (Some 12%Q) |}.

Definition newCircle (rnd : string) : Shape.t :=
  {| Shape.id := uid "circle" rnd; Shape.name := Some "Circle";
     Shape.x := 500; Shape.y := 300; Shape.rotation := 0;
     Shape.locked := None; Shape.hidden := None;
     Shape.body := circle 100 "#a7f3d0" (Some "#111827") (Some 2%Q) |}.

Definition newText (rnd : string) : Shape.t :=
  {| Shape.id := uid "text" rnd; Shape.name := Some "Text";
     Shape.x := 240; Shape.y := 180; Shape.rotation := 0;
     Shape.locked := None; Shape.hidden := None;
     Shape.body := text "Double‑tap to edit" 40 (Some 600%Q) "#111827" |}.

(** [onImageUpload], after the image has loaded with size [imgW] x [imgH]. *)
Definition newImage (rnd url : string) (imgW imgH : Q) : Shape.t :=
  {| Shape.id := uid "img" rnd; Shape.name := Some "Image";
     Shape.x := 260; Shape.y := 220; Shape.rotation := 0;
     Shape.locked := None; Shape.hidden := None;
     Shape.body := image (Qmin 600 imgW) (Qmin 400 imgH) url |}.

Definition addRect (rnd : string) : Editor -> Editor := addShape (newRect rnd).
Definition addCircle (rnd : string) : Editor -> Editor := addShape (newCircle rnd).
Definition addText (rnd : string) : Editor -> Editor := addShape (newText rnd).
Definition onImageUpload (rnd url : string) (imgW imgH : Q) : Editor -> Editor :=
  addShape (newImage rnd url imgW imgH).

(** ** Updating and deleting *)

Definition updateShape_updater (i : string) (partial : Partial.t) : ShapeUpdater :=
  fun prev => map (fun s => if shape_id_is i s then spread s partial else s) prev.

Definition updateShape (i : string) (partial : Partial.t) (st : Editor) : Editor :=
  commit (Updater (updateShape_updater i partial)) st.

(** [!selectedId]: null and the empty string are falsy. *)
Definition truthy_id (o : option string) : option string :=
  match o with
  | Some i => if String.eqb i "" then None else Some i
  | None => None
  end.

Definition deleteSelected (st : Editor) : Editor :=
  match truthy_id (selectedId st) with
  | None => st
  | Some sel =>
      setSelectedId None
        (commit (Updater (fun prev =>
                   filter (fun s => negb (shape_id_is sel s)) prev))
                st)
  end.

(** ** Viewport *)

(** [!n] on a number (NaN apart): true for zero. *)
Definition falsy_number (n : Q) : bool := Qeq_bool n 0.

Definition fitToScreen (st : Editor) : Editor :=
  let width := size_width (containerSize st) in
  let height := size_height (containerSize st) in
  if falsy_number width || falsy_number height then st
  else
    let scaleX := (width / SLIDE_W)%Q in
    let scaleY := (height / SLIDE_H)%Q in
    let nextScale := Qmin scaleX scaleY in
    setViewport nextScale
      {| px := ((width - SLIDE_W * nextScale) / 2)%Q;
         py := ((height - SLIDE_H * nextScale) / 2)%Q |}
      st.

(** The screen-to-document conversion that [zoomBy] inlines as
    [mousePointTo]: [(pointer - offset) / scale] on each axis. *)
Definition toDocument (pointer : Point) (sc : Q) (off : Point) : Point :=
  {| px := ((px pointer - px off) / sc)%Q;
     py := ((py pointer - py off) / sc)%Q |}.

(** The [pointer] of [zoomBy], where the zoom is anchored: the [center] argument, else the
    stage's pointer position, else the centre of the container. *)
Definition zoomAnchor (center : option Point) (stage : Stage) (st : Editor) : Point :=
  Js.nullish center
    (Js.nullish (getPointerPosition stage)
       {| px := (size_width (containerSize st) / 2)%Q;
          py := (size_height (containerSize st) / 2)%Q |}).

Definition zoomBy (factor : Q) (center : option Point) (st : Editor) : Editor :=
  match stageRef st with
  | None => st
  | Some stage =>
      let pointer := zoomAnchor center stage st in
      let oldScale := scale st in
      let mousePointTo := toDocument pointer oldScale (offset st) in
      let newScale := clamp (oldScale * factor)%Q (1 # 10) 4 in
      let newPos :=
        {| px := (px pointer - px mousePointTo * newScale)%Q;
           py := (py pointer - py mousePointTo * newScale)%Q |} in
      setViewport newScale newPos st
  end.

(** [onWheel]: a fixed factor per event, by the sign of [deltaY]. *)
Definition onWheel (deltaY clientX clientY : Q) (st : Editor) : Editor :=
  let factor := if Qlt_le_dec 0 deltaY then (9 # 10)%Q else (11 # 10)%Q in
  zoomBy factor (Some {| px := clientX; py := clientY |}) st.

(** ** Grid *)

Definition snap (st : Editor) (n : Q) : Q :=
  if gridEnabled st then (Js.Math_round (n / gridSize st) * gridSize st)%Q else n.

(** ** Alignment *)

Module Dir.
Inductive t := left | centerX | right | top | centerY | bottom.
End Dir.

(** [getSize] of [alignSelected]: the box the alignment uses, as [(w, h)]. *)
Definition getSize (sh : Shape.t) : Q * Q :=
  match Shape.body sh with
  | rect w h _ _ _ _ => (w, h)
  | image w h _ => (w, h)
  | circle r _ _ _ => (r * 2, r * 2)%Q
  | text _ fs w _ => (Js.nullish w 300, fs * (12 # 10))%Q
  end.

(** The partial [{ x, y }]. *)
Definition position (nx ny : Q) : Partial.t :=
  {| Partial.x := Some nx; Partial.y := Some ny; Partial.rotation := None;
     Partial.name := None; Partial.locked := None; Partial.hidden := None;
     Partial.width := None; Partial.height := None; Partial.radius := None;
     Partial.fill := None; Partial.stroke := None; Partial.strokeWidth := None;
     Partial.cornerRadius := None; Partial.text := None;
     Partial.fontSize := None |}.

(** The target [(nx, ny)] of an alignment, before snapping. *)
Definition alignTarget (dir : Dir.t) (s : Shape.t) : Q * Q :=
  let '(w, h) := getSize s in
  let nx := Shape.x s in
  let ny := Shape.y s in
  let nx := match dir with Dir.left => 0%Q | _ => nx end in
  let nx := match dir with Dir.centerX => ((SLIDE_W - w) / 2)%Q | _ => nx end in
  let nx := match dir with Dir.right => (SLIDE_W - w)%Q | _ => nx end in
  let ny := match dir with Dir.top => 0%Q | _ => ny end in
  let ny := match dir with Dir.centerY => ((SLIDE_H - h) / 2)%Q | _ => ny end in
  let ny := match dir with Dir.bottom => (SLIDE_H - h)%Q | _ => ny end in
  (nx, ny).

Definition alignSelected (dir : Dir.t) (st : Editor) : Editor :=
  match truthy_id (selectedId st) with
  | None => st
  | Some sel =>
      match Js.find (shape_id_is sel) (shapes st) with
      | None => st
      | Some s =>
          let '(nx, ny) := alignTarget dir s in
          updateShape (Shape.id s) (position (snap st nx) (snap st ny)) st
      end
  end.

(** ** Layer operations *)

(** [next[i] = next[j]; next[j] = tmp] on a copy, for two indices in range
    (the callers' guards make them so; out of range the copy is returned). *)
Definition swap (next : Snapshot) (i j : nat) : Snapshot :=
  match next !! i, next !! j with
  | Some tmp, Some other => <[j := tmp]> (<[i := other]> next)
  | _, _ => next
  end.

(** The updater of [bringForward]. *)
Definition bringForward_updater (i : string) : ShapeUpdater := fun prev =>
  let idx := Js.findIndex (shape_id_is i) prev in
  if (idx <? 0)%Z || (idx =? Z.of_nat (length prev) - 1)%Z then prev
  else swap prev (Z.to_nat idx) (Z.to_nat (idx + 1)).

(** The updater of [sendBackward]. *)
Definition sendBackward_updater (i : string) : ShapeUpdater := fun prev =>
  let idx := Js.findIndex (shape_id_is i) prev in
  if (idx <=? 0)%Z then prev
  else swap prev (Z.to_nat idx) (Z.to_nat (idx - 1)).

(** [const [item] = next.splice(idx, 1)]: the removed item and the rest. *)
Definition splice1 (next : Snapshot) (idx : nat) : option Shape.t * Snapshot :=
  (next !! idx, delete idx next).

(** The updater of [bringToFront]. *)
Definition bringToFront_updater (i : string) : ShapeUpdater := fun prev =>
  let idx := Js.findIndex (shape_id_is i) prev in
  if (idx <? 0)%Z || (idx =? Z.of_nat (length prev) - 1)%Z then prev
  else match splice1 prev (Z.to_nat idx) with
       | (Some item, next) => next ++ [item]
       | (None, next) => next
       end.

(** The updater of [sendToBack]. *)
Definition sendToBack_updater (i : string) : ShapeUpdater := fun prev =>
  let idx := Js.findIndex (shape_id_is i) prev in
  if (idx <=? 0)%Z then prev
  else match splice1 prev (Z.to_nat idx) with
       | (Some item, next) => item :: next
       | (None, next) => next
       end.

Definition bringForward (i : string) : Editor -> Editor :=
  commit (Updater (bringForward_updater i)).
Definition sendBackward (i : string) : Editor -> Editor :=
  commit (Updater (sendBackward_updater i)).
Definition bringToFront (i : string) : Editor -> Editor :=
  commit (Updater (bringToFront_updater i)).
Definition sendToBack (i : string) : Editor -> Editor :=
  commit (Updater (sendToBack_updater i)).

(** ** Transform end *)

(** What the handlers read and write of the Konva node under the transformer. *)
Record KonvaNode := {
  node_x : Q;
  node_y : Q;
  node_rotation : Q;
  node_scaleX : Q;
  node_scaleY : Q
}.

(** [node.scaleX(1); node.scaleY(1)] *)
Definition resetScale (node : KonvaNode) : KonvaNode :=
  {| node_x := node_x node; node_y := node_y node;
     node_rotation := node_rotation node;
     node_scaleX := 1; node_scaleY := 1 |}.

(** The partial a transform-end handler passes to [updateShape]: position,
    rotation, and the absolute size fields of the shape's kind. *)
Definition transformPartial (st : Editor) (s : Shape.t) (node : KonvaNode) : Partial.t :=
  let scaleX := node_scaleX node in
  let scaleY := node_scaleY node in
  let sized (w h r : option Q) : Partial.t :=
    {| Partial.x := Some (snap st (node_x node));
       Partial.y := Some (snap st (node_y node));
       Partial.rotation := Some (node_rotation node);
       Partial.name := None; Partial.locked := None; Partial.hidden := None;
       Partial.width := w; Partial.height := h; Partial.radius := r;
       Partial.fill := None; Partial.stroke := None;
       Partial.strokeWidth := None; Partial.cornerRadius := None;
       Partial.text := None; Partial.fontSize := None |} in
  match Shape.body s with
  | rect w h _ _ _ _ =>
      sized (Some (Qmax 10 (w * scaleX))) (Some (Qmax 10 (h * scaleY))) None
  | image w h _ =>
      sized (Some (Qmax 10 (w * scaleX))) (Some (Qmax 10 (h * scaleY))) None
  | circle r _ _ _ =>
      sized None None (Some (Qmax 5 (r * scaleX)))
  | text _ _ w _ =>
      sized (Some (Qmax 50 (Js.nullish w 300%Q * scaleX))) None None
  end.

(** [onTransformEnd] of the node rendered for shape [s] ([ShapeNode] attaches
    the handler of [s.kind]): the node with its scale reset, and the editor
    after the update. *)
Definition onTransformEnd (s : Shape.t) (node : KonvaNode) (st : Editor)
  : KonvaNode * Editor :=
  (resetScale node, updateShape (Shape.id s) (transformPartial st s node) st).

(** [onDragEnd] of a shape node. *)
Definition onDragEnd (s : Shape.t) (node : KonvaNode) (st : Editor) : Editor :=
  updateShape (Shape.id s) (position (snap st (node_x node)) (snap st (node_y node))) st.

(** ** Sequences of callbacks *)

(** [n] calls of the callback [f], one after the other. *)
Fixpoint times {A} (n : nat) (f : A -> A) (a : A) : A :=
  match n with
  | O => a
  | S k => times k f (f a)
  end.

(** What [commit] resolves its argument to. *)
Definition resolve (next : CommitArg) (prev : Snapshot) : Snapshot :=
  match next with
  | Updater f => f prev
  | Value v => v
  end.

(** The commits [ms], in order. *)
Definition commits (ms : list CommitArg) (st : Editor) : Editor :=
  foldl (fun s m => commit m s) st ms.

(** The snapshot before each commit of [ms], starting from [c]. *)
Fixpoint trace (c : Snapshot) (ms : list CommitArg) : list Snapshot :=
  match ms with
  | [] => []
  | m :: ms' => c :: trace (resolve m c) ms'
  end.

(** The snapshot after all the commits of [ms]. *)
Definition final (c : Snapshot) (ms : list CommitArg) : Snapshot :=
  foldl (fun c m => resolve m c) c ms.

(** All the snapshots of a run: before each commit, and the last one. *)
Definition snapshots (c : Snapshot) (ms : list CommitArg) : list Snapshot :=
  trace c ms ++ [final c ms].

(** The initial [useState] values, before the stage is mounted. *)
Definition initial : Editor :=
  {| shapes := []; selectedId := None; scale := 1; offset := {| px := 0; py := 0 |};
     history := []; future := []; gridEnabled := true; gridSize := 32;
     containerSize := {| size_width := 0; size_height := 0 |};
     stageRef := None |}.

(** The last [n] elements of a list. *)
Definition lastn {A} (n : nat) (l : list A) : list A := drop (length l - n) l.

(** ** Sample sessions *)

(** An editor with one rectangle, added from the toolbar. *)
Definition demo : Editor := addRect "k3x9q2a" initial.

(** The commit that moves shape [i] to [(k, 150)]: the updater of an
    [updateShape] of its position. *)
Definition moveTo (i : string) (k : nat) : CommitArg :=
  Updater (updateShape_updater i (position (inject_Z (Z.of_nat k)) 150)).

(** [n] successive moves of the rectangle of [demo], to x = 1, ..., n. *)
Definition drags (n : nat) : list CommitArg :=
  map (moveTo (uid "rect" "k3x9q2a")) (seq 1 n).

(** Adding the rectangle and moving it [n] times, as commits. *)
Definition session (n : nat) : list CommitArg :=
  Updater (addShape_updater (newRect "k3x9q2a")) :: drags n.

(** [demo] with a circle and a text block added above the rectangle. *)
Definition stacked : Editor := addText "7hq02mz" (addCircle "p0d41xw" demo).

(** [demo] with a circle added, and then a second rectangle for which [uid]
    draws the digits of the first. *)
Definition collided : Editor := addRect "k3x9q2a" (addCircle "p0d41xw" demo).

(** The editor of [demo] mounted in a container of 150 x 300 pixels. *)
Definition narrow : Editor :=
  setStageRef (Some {| getPointerPosition := None |})
    (setContainerSize {| size_width := 150; size_height := 300 |} demo).

(** A transformer drag on the rectangle of [demo]: twice as wide, and
    squeezed to a hundredth of its height. *)
Definition squeezed : KonvaNode :=
  {| node_x := 200; node_y := 150; node_rotation := 0;
     node_scaleX := 2; node_scaleY := 1 # 100 |}.

(** ** Specification predicates *)

(** The range the zoom keeps the scale in. *)
Definition scale_in_range (sc : Q) : Prop := (1 # 10 <= sc /\ sc <= 4)%Q.

(** Two points with equal coordinates. *)
Definition point_eq (p q : Point) : Prop := (px p == px q /\ py p == py q)%Q.

(** The identifiers of a snapshot are pairwise distinct (the invariant of the
    data model). *)
Definition unique_ids (prev : Snapshot) : Prop := NoDup (map Shape.id prev).

(** [st'] is [st] after a commit that changed nothing in the snapshot but
    took a slot of the past stack and dropped the future stack. *)
Definition spent_slot (st st' : Editor) : Prop :=
  shapes st' = shapes st
  /\ history st' = Js.slice (history st) (-49) None ++ [shapes st]
  /\ last (history st') = Some (shapes st)
  /\ length (history st') = Nat.min 50 (S (length (history st)))
  /\ canUndo st' = true
  /\ future st' = []
  /\ canRedo st' = false
  /\ shapes (undo st') = shapes st'.

(** Whether a direction aligns along the x axis. *)
Definition x_axis (dir : Dir.t) : bool :=
  match dir with
  | Dir.left | Dir.centerX | Dir.right => true
  | Dir.top | Dir.centerY | Dir.bottom => false
  end.

(** The coordinate of a shape on the axis a direction does not align. *)
Definition orthogonal (dir : Dir.t) (s : Shape.t) : Q :=
  if x_axis dir then Shape.y s else Shape.x s.

(** The minimum sizes of a resize: 10 for the sides of a rectangle or an
    image, 5 for the radius of a circle, 50 for the width of a text box. *)
Definition size_floors (b : Body) : Prop :=
  match b with
  | rect w h _ _ _ _ => (10 <= w /\ 10 <= h)%Q
  | image w h _ => (10 <= w /\ 10 <= h)%Q
  | circle r _ _ _ => (5 <= r)%Q
  | text _ _ w _ => exists v, w = Some v /\ (50 <= v)%Q
  end.

(** The body a transform end is to store for a shape with body [b] and scale
    factors [(sx, sy)]: each size field of the kind, times its factor, floored
    at the kind's minimum (a text box without a width counts as 300 wide). *)
Definition scaled_body (b : Body) (sx sy : Q) : Body :=
  match b with
  | rect w h f sk sw cr => rect (Qmax 10 (w * sx)) (Qmax 10 (h * sy)) f sk sw cr
  | image w h src => image (Qmax 10 (w * sx)) (Qmax 10 (h * sy)) src
  | circle r f sk sw => circle (Qmax 5 (r * sx)) f sk sw
  | text t fs w f => text t fs (Some (Qmax 50 (Js.nullish w 300%Q * sx))) f
  end.

(** * The rest of the editor's callbacks *)

(** ** Settings and interaction state *)

(** [setGridEnabled] *)
Definition setGridEnabled (b : bool) (st : Editor) : Editor :=
  {| shapes := shapes st; selectedId := selectedId st; scale := scale st;
     offset := offset st; history := history st; future := future st;
     gridEnabled := b; gridSize := gridSize st;
     containerSize := containerSize st; stageRef := stageRef st |}.

(** [setGridSize] *)
Definition setGridSize (g : Q) (st : Editor) : Editor :=
  {| shapes := shapes st; selectedId := selectedId st; scale := scale st;
     offset := offset st; history := history st; future := future st;
     gridEnabled := gridEnabled st; gridSize := g;
     containerSize := containerSize st; stageRef := stageRef st |}.

(** [setOffset((p) => ({ x: p.x + dx, y: p.y + dy }))] *)
Definition moveOffset (dx dy : Q) (st : Editor) : Editor :=
  setViewport (scale st)
    {| px := (px (offset st) + dx)%Q; py := (py (offset st) + dy)%Q |} st.

(** The editor together with the state of the pointer gestures: the pan mode,
    the stage drag in progress and [lastTouchRef]. *)
Record Ui := {
  editor : Editor;
  isPanMode : bool;
  isDraggingStage : bool;
  lastTouchRef : option Point
}.

(** A callback of the editor, run in the whole interface. *)
Definition onEditor (f : Editor -> Editor) (ui : Ui) : Ui :=
  {| editor := f (editor ui); isPanMode := isPanMode ui;
     isDraggingStage := isDraggingStage ui; lastTouchRef := lastTouchRef ui |}.

Definition setIsPanMode (b : bool) (ui : Ui) : Ui :=
  {| editor := editor ui; isPanMode := b;
     isDraggingStage := isDraggingStage ui; lastTouchRef := lastTouchRef ui |}.

Definition setIsDraggingStage (b : bool) (ui : Ui) : Ui :=
  {| editor := editor ui; isPanMode := isPanMode ui;
     isDraggingStage := b; lastTouchRef := lastTouchRef ui |}.

Definition setLastTouch (o : option Point) (ui : Ui) : Ui :=
  {| editor := editor ui; isPanMode := isPanMode ui;
     isDraggingStage := isDraggingStage ui; lastTouchRef := o |}.

(** The interface as it is first rendered. *)
Definition initialUi : Ui :=
  {| editor := initial; isPanMode := false; isDraggingStage := false;
     lastTouchRef := None |}.

(** The resize observer's [setSize], and the effect that re-runs
    [fitToScreen] when the container size has changed. *)
Definition onResize (sz : Size) (st : Editor) : Editor :=
  fitToScreen (setContainerSize sz st).

(** ** Keyboard *)

Module KeyboardEvent.
Record t := {
  key : string;
  code : string;
  ctrlKey : bool;
  metaKey : bool;
  shiftKey : bool
}.
End KeyboardEvent.

(** [key.toLowerCase() === c] for a letter [c] with capital [C]: no other
    string has [c] as its lower case. *)
Definition lower_is (c C k : string) : bool := String.eqb k c || String.eqb k C.

(** The truth value of an optional flag such as [s.locked]. *)
Definition truthy_flag (o : option bool) : bool :=
  match o with Some true => true | _ => false end.

Definition isArrow (k : string) : bool :=
  String.eqb k "ArrowLeft" || String.eqb k "ArrowRight"
  || String.eqb k "ArrowUp" || String.eqb k "ArrowDown".

(** [dx] and [dy] of an arrow key. *)
Definition arrowDx (k : string) (delta : Q) : Q :=
  if String.eqb k "ArrowLeft" then (- delta)%Q
  else if String.eqb k "ArrowRight" then delta else 0%Q.

Definition arrowDy (k : string) (delta : Q) : Q :=
  if String.eqb k "ArrowUp" then (- delta)%Q
  else if String.eqb k "ArrowDown" then delta else 0%Q.

(** The arrow-key branch of [onKey], for the shape [s] that the selection
    resolves to: the handler inlines the expression of [snap]. *)
Definition nudge (k : string) (delta : Q) (s : Shape.t) (st : Editor) : Editor :=
  let dx := arrowDx k delta in
  let dy := arrowDy k delta in
  let nx := snap st (Shape.x s + dx)%Q in
  let ny := snap st (Shape.y s + dy)%Q in
  updateShape (Shape.id s) (position nx ny) st.

(** [if (e.code === 'Space') setIsPanMode(true)], the last statement of [onKey]. *)
Definition spaceDown (e : KeyboardEvent.t) (ui : Ui) : Ui :=
  if String.eqb (KeyboardEvent.code e) "Space" then setIsPanMode true ui else ui.

(** The [keydown] listener. *)
Definition onKey (e : KeyboardEvent.t) (ui : Ui) : Ui :=
  let k := KeyboardEvent.key e in
  let mod_ := KeyboardEvent.ctrlKey e || KeyboardEvent.metaKey e in
  let delta := if KeyboardEvent.shiftKey e then 10%Q else 1%Q in
  if mod_ && lower_is "z" "Z" k then onEditor undo ui
  else if mod_ && lower_is "y" "Y" k then onEditor redo ui
  else
    match truthy_id (selectedId (editor ui)) with
    | Some sel =>
        if String.eqb k "Delete" || String.eqb k "Backspace"
        then onEditor deleteSelected ui
        else if isArrow k then
          match Js.find (shape_id_is sel) (shapes (editor ui)) with
          | None => ui
          | Some s =>
              if truthy_flag (Shape.locked s) then ui
              else spaceDown e (onEditor (nudge k delta s) ui)
          end
        else spaceDown e ui
    | None => spaceDown e ui
    end.

(** The [keyup] listener. *)
Definition onKeyUp (e : KeyboardEvent.t) (ui : Ui) : Ui :=
  if String.eqb (KeyboardEvent.code e) "Space" then setIsPanMode false ui else ui.

(** ** Panning *)

(** [deselect]: a click on the empty stage clears the selection. *)
Definition deselect (clickedOnEmpty : bool) (st : Editor) : Editor :=
  if clickedOnEmpty then setSelectedId None st else st.

Definition onStageMouseDown (clickedOnEmpty : bool) (ui : Ui) : Ui :=
  onEditor (deselect clickedOnEmpty)
    (if isPanMode ui then setIsDraggingStage true ui else ui).

Definition onStageMouseUp (ui : Ui) : Ui := setIsDraggingStage false ui.

(** The stage's [onMouseMove]; [movementX] and [movementY] may be missing. *)
Definition onStageDragMove (movementX movementY : option Q) (ui : Ui) : Ui :=
  if isDraggingStage ui
  then onEditor (moveOffset (Js.nullish movementX 0%Q) (Js.nullish movementY 0%Q)) ui
  else ui.

(** The stage's [onTouchStart], with the touches of the event. *)
Definition onTouchStart (clickedOnEmpty : bool) (touches : list Point) (ui : Ui) : Ui :=
  let ui' := onStageMouseDown clickedOnEmpty ui in
  match touches with
  | [touch] => setLastTouch (Some touch) ui'
  | _ => ui'
  end.

Definition onTouchEnd (ui : Ui) : Ui := onStageMouseUp (setLastTouch None ui).

(** The stage's [onTouchMove]: a one-finger pan, at 0.6 of the finger's travel. *)
Definition onTouchMove (touches : list Point) (ui : Ui) : Ui :=
  if isPanMode ui then
    match touches with
    | [touch] =>
        setLastTouch (Some touch)
          (match lastTouchRef ui with
           | Some last =>
               onEditor (moveOffset ((6 # 10) * (px touch - px last))%Q
                                    ((6 # 10) * (py touch - py last))%Q) ui
           | None => ui
           end)
    | _ => ui
    end
  else ui.

(** ** Inspector *)

(** Partials with one field. *)
Definition p_x (v : Q) : Partial.t :=
  Partial.mk (Some v) None None None None None None None None None None None None None None.
Definition p_y (v : Q) : Partial.t :=
  Partial.mk None (Some v) None None None None None None None None None None None None None.
Definition p_rotation (v : Q) : Partial.t :=
  Partial.mk None None (Some v) None None None None None None None None None None None None.
Definition p_name (v : string) : Partial.t :=
  Partial.mk None None None (Some v) None None None None None None None None None None None.
Definition p_locked (v : bool) : Partial.t :=
  Partial.mk None None None None (Some v) None None None None None None None None None None.
Definition p_hidden (v : bool) : Partial.t :=
  Partial.mk None None None None None (Some v) None None None None None None None None None.
Definition p_width (v : Q) : Partial.t :=
  Partial.mk None None None None None None (Some v) None None None None None None None None.
Definition p_height (v : Q) : Partial.t :=
  Partial.mk None None None None None None None (Some v) None None None None None None None.
Definition p_radius (v : Q) : Partial.t :=
  Partial.mk None None None None None None None None (Some v) None None None None None None.
Definition p_fill (v : string) : Partial.t :=
  Partial.mk None None None None None None None None None (Some v) None None None None None.
Definition p_stroke (v : string) : Partial.t :=
  Partial.mk None None None None None None None None None None (Some v) None None None None.
Definition p_strokeWidth (v : Q) : Partial.t :=
  Partial.mk None None None None None None None None None None None (Some v) None None None.
Definition p_cornerRadius (v : Q) : Partial.t :=
  Partial.mk None None None None None None None None None None None None (Some v) None None.
Definition p_text (v : string) : Partial.t :=
  Partial.mk None None None None None None None None None None None None None (Some v) None.
Definition p_fontSize (v : Q) : Partial.t :=
  Partial.mk None None None None None None None None None None None None None None (Some v).

(** The text inputs of the inspector. *)
Inductive Input :=
| InName | InX | InY | InRotation
| InW | InH | InCorner | InStrokeWidth | InFill | InStroke
| InRadius | InText | InFontSize | InBoxWidth.

(** Its checkboxes. *)
Inductive Toggle := TgLock | TgHide.

Section Inspector.

(** [Number(v)] when it is finite, as the JavaScript engine parses it. *)
Variable Number : string -> option Q.

(** [toNum]: the parsed number, or the fallback when it is not finite. *)
Definition toNum (v : string) (fallback : Q) : Q :=
  match Number v with
  | Some n => n
  | None => fallback
  end.

(** The partial that the [onChange] of an input passes to [updateShape] for
    the selected shape [s] and the typed text [v]; [None] when the inspector
    shows no such input for the kind of [s]. *)
Definition inputPartial (s : Shape.t) (input : Input) (v : string) : option Partial.t :=
  match input, Shape.body s with
  | InName, _ => Some (p_name v)
  | InX, _ => Some (p_x (toNum v (Shape.x s)))
  | InY, _ => Some (p_y (toNum v (Shape.y s)))
  | InRotation, _ => Some (p_rotation (toNum v (Shape.rotation s)))
  | InW, rect w _ _ _ _ _ => Some (p_width (Qmax 1 (toNum v w)))
  | InH, rect _ h _ _ _ _ => Some (p_height (Qmax 1 (toNum v h)))
  | InCorner, rect _ _ _ _ _ cr =>
      Some (p_cornerRadius (clamp (toNum v (Js.nullish cr 0%Q)) 0 200))
  | InStrokeWidth, rect _ _ _ _ sw _ =>
      Some (p_strokeWidth (clamp (toNum v (Js.nullish sw 0%Q)) 0 40))
  | InFill, rect _ _ _ _ _ _ => Some (p_fill v)
  | InStroke, rect _ _ _ _ _ _ => Some (p_stroke v)
  | InRadius, circle r _ _ _ => Some (p_radius (Qmax 1 (toNum v r)))
  | InFill, circle _ _ _ _ => Some (p_fill v)
  | InStroke, circle _ _ _ _ => Some (p_stroke v)
  | InStrokeWidth, circle _ _ _ sw =>
      Some (p_strokeWidth (clamp (toNum v (Js.nullish sw 0%Q)) 0 40))
  | InText, text _ _ _ _ => Some (p_text v)
  | InFontSize, text _ fs _ _ => Some (p_fontSize (Qmax 1 (toNum v fs)))
  | InBoxWidth, text _ _ w _ =>
      Some (p_width (Qmax 50 (toNum v (Js.nullish w 300%Q))))
  | InFill, text _ _ _ _ => Some (p_fill v)
  | InW, image w _ _ => Some (p_width (Qmax 1 (toNum v w)))
  | InH, image _ h _ => Some (p_height (Qmax 1 (toNum v h)))
  | _, _ => None
  end.

(** The shape the inspector shows: none without a selection, or when the
    selection resolves to no shape. *)
Definition inspected (st : Editor) : option Shape.t :=
  match truthy_id (selectedId st) with
  | Some sel => Js.find (shape_id_is sel) (shapes st)
  | None => None
  end.

(** Typing [v] in an input of the inspector. *)
Definition onInput (input : Input) (v : string) (st : Editor) : Editor :=
  match inspected st with
  | Some s =>
      match inputPartial s input v with
      | Some partial => updateShape (Shape.id s) partial st
      | None => st
      end
  | None => st
  end.

(** Ticking or clearing a checkbox of the inspector. *)
Definition onToggle (t : Toggle) (checked : bool) (st : Editor) : Editor :=
  match inspected st with
  | Some s =>
      updateShape (Shape.id s)
        (match t with TgLock => p_locked checked | TgHide => p_hidden checked end)
        st
  | None => st
  end.

(** The grid-size input of the toolbar. *)
Definition onGridSizeInput (v : string) (st : Editor) : Editor :=
  setGridSize (clamp (toNum v (gridSize st)) 2 256) st.

End Inspector.

(** ** Shape nodes and the layer list *)

(** The lock and hide buttons of a row of the layer list. *)
Definition toggleLocked (s : Shape.t) : Editor -> Editor :=
  updateShape (Shape.id s) (p_locked (negb (truthy_flag (Shape.locked s)))).

Definition toggleHidden (s : Shape.t) : Editor -> Editor :=
  updateShape (Shape.id s) (p_hidden (negb (truthy_flag (Shape.hidden s)))).

(** A click on a row of the layer list: [!s.locked && setSelectedId(s.id)]. *)
Definition onRowClick (s : Shape.t) (st : Editor) : Editor :=
  if truthy_flag (Shape.locked s) then st else setSelectedId (Some (Shape.id s)) st.

(** The double click on a text node: [prompt] returns the new text, or null. *)
Definition onDblClick (s : Shape.t) (next : option string) (st : Editor) : Editor :=
  match next with
  | Some v => updateShape (Shape.id s) (p_text v) st
  | None => st
  end.

(** [draggable={!isPanMode && !s.locked}] *)
Definition draggable (ui : Ui) (s : Shape.t) : bool :=
  negb (isPanMode ui) && negb (truthy_flag (Shape.locked s)).

(** ** The events of the interface *)

Inductive LayerOp := Front | Back | Up | Down.

(** What the user and the browser can do to the mounted editor.  A shape node
    or a row of the layer list is named by the index of its shape in the
    current snapshot. *)
Inductive Event :=
| EvAddRect (rnd : string)
| EvAddCircle (rnd : string)
| EvAddText (rnd : string)
| EvImageUpload (rnd url : string) (imgW imgH : Q)
| EvUndo
| EvRedo
| EvDelete
| EvAlign (dir : Dir.t)
| EvLayer (op : LayerOp) (n : nat)
| EvKeyDown (e : KeyboardEvent.t)
| EvKeyUp (e : KeyboardEvent.t)
| EvPanToggle
| EvZoomIn
| EvZoomOut
| EvWheel (deltaY clientX clientY : Q)
| EvFit
| EvResize (sz : Size)
| EvStage (stage : option Stage)
| EvMouseDown (clickedOnEmpty : bool)
| EvMouseUp
| EvMouseMove (movementX movementY : option Q)
| EvTouchStart (clickedOnEmpty : bool) (touches : list Point)
| EvTouchEnd
| EvTouchMove (touches : list Point)
| EvLayerClick (clickedOnEmpty : bool)
| EvSnapToggle (checked : bool)
| EvGridSize (v : string)
| EvInput (input : Input) (v : string)
| EvToggle (t : Toggle) (checked : bool)
| EvNodeClick (n : nat)
| EvDragEnd (n : nat) (node : KonvaNode)
| EvTransformEnd (n : nat) (node : KonvaNode)
| EvDblClick (n : nat) (next : option string)
| EvRowClick (n : nat)
| EvRowLock (n : nat)
| EvRowHide (n : nat).

(** A callback of the row of the layer list at index [n]. *)
Definition withRow (n : nat) (f : Shape.t -> Editor -> Editor) (st : Editor) : Editor :=
  match shapes st !! n with
  | Some s => f s st
  | None => st
  end.

(** A callback of the shape node at index [n]; [ShapeNode] renders no node
    for a hidden shape. *)
Definition withNode (n : nat) (f : Shape.t -> Editor -> Editor) (st : Editor) : Editor :=
  withRow n (fun s st => if truthy_flag (Shape.hidden s) then st else f s st) st.

Definition layerOp (op : LayerOp) (s : Shape.t) : Editor -> Editor :=
  match op with
  | Front => bringToFront (Shape.id s)
  | Back => sendToBack (Shape.id s)
  | Up => bringForward (Shape.id s)
  | Down => sendBackward (Shape.id s)
  end.

Section Events.

Variable Number : string -> option Q.

(** The reaction of the interface to one event. *)
Definition handle (ev : Event) (ui : Ui) : Ui :=
  match ev with
  | EvAddRect rnd => onEditor (addRect rnd) ui
  | EvAddCircle rnd => onEditor (addCircle rnd) ui
  | EvAddText rnd => onEditor (addText rnd) ui
  | EvImageUpload rnd url w h => onEditor (onImageUpload rnd url w h) ui
  | EvUndo => onEditor undo ui
  | EvRedo => onEditor redo ui
  | EvDelete => onEditor deleteSelected ui
  | EvAlign dir => onEditor (alignSelected dir) ui
  | EvLayer op n => onEditor (withRow n (layerOp op)) ui
  | EvKeyDown e => onKey e ui
  | EvKeyUp e => onKeyUp e ui
  | EvPanToggle => setIsPanMode (negb (isPanMode ui)) ui
  | EvZoomIn => onEditor (zoomBy (11 # 10) None) ui
  | EvZoomOut => onEditor (zoomBy (9 # 10) None) ui
  | EvWheel dy cx cy => onEditor (onWheel dy cx cy) ui
  | EvFit => onEditor fitToScreen ui
  | EvResize sz => onEditor (onResize sz) ui
  | EvStage stage => onEditor (setStageRef stage) ui
  | EvMouseDown empty => onStageMouseDown empty ui
  | EvMouseUp => onStageMouseUp ui
  | EvMouseMove mx my => onStageDragMove mx my ui
  | EvTouchStart empty touches => onTouchStart empty touches ui
  | EvTouchEnd => onTouchEnd ui
  | EvTouchMove touches => onTouchMove touches ui
  | EvLayerClick empty => onEditor (deselect empty) ui
  | EvSnapToggle checked => onEditor (setGridEnabled checked) ui
  | EvGridSize v => onEditor (onGridSizeInput Number v) ui
  | EvInput input v => onEditor (onInput Number input v) ui
  | EvToggle t checked => onEditor (onToggle t checked) ui
  | EvNodeClick n =>
      onEditor (withNode n (fun s => setSelectedId (Some (Shape.id s)))) ui
  | EvDragEnd n node => onEditor (withNode n (fun s => onDragEnd s node)) ui
  | EvTransformEnd n node =>
      onEditor (withNode n (fun s st => snd (onTransformEnd s node st))) ui
  | EvDblClick n next =>
      onEditor (withNode n (fun s st =>
                  match Shape.body s with
                  | text _ _ _ _ => onDblClick s next st
                  | _ => st
                  end)) ui
  | EvRowClick n => onEditor (withRow n onRowClick) ui
  | EvRowLock n => onEditor (withRow n toggleLocked) ui
  | EvRowHide n => onEditor (withRow n toggleHidden) ui
  end.

(** The events in order. *)
Definition run (evs : list Event) (ui : Ui) : Ui :=
  foldl (fun u ev => handle ev u) ui evs.

End Events.

(** ** Invariants of a session *)

(** An uploaded image that has loaded is at least one pixel wide and high. *)
Definition loaded (ev : Event) : Prop :=
  match ev with
  | EvImageUpload _ _ w h => (1 <= w /\ 1 <= h)%Q
  | _ => True
  end.

Definition opt_between (lo hi : Q) (o : option Q) : Prop :=
  match o with
  | Some v => (lo <= v /\ v <= hi)%Q
  | None => True
  end.

(** The prefix that [uid] is given for a shape of each kind. *)
Definition kind_prefix (b : Body) : string :=
  match b with
  | rect _ _ _ _ _ _ => "rect"
  | circle _ _ _ _ => "circle"
  | text _ _ _ _ => "text"
  | image _ _ _ => "img"
  end.

(** The identifier of a shape carries the prefix of its kind. *)
Definition kinded (s : Shape.t) : Prop :=
  exists rnd, Shape.id s = uid (kind_prefix (Shape.body s)) rnd.

(** The ranges the editor keeps the size fields in. *)
Definition well_sized (b : Body) : Prop :=
  match b with
  | rect w h _ _ sw cr =>
      (1 <= w)%Q /\ (1 <= h)%Q /\ opt_between 0 40 sw /\ opt_between 0 200 cr
  | circle r _ _ sw => (1 <= r)%Q /\ opt_between 0 40 sw
  | text _ fs w _ =>
      (1 <= fs)%Q /\ match w with Some v => (50 <= v)%Q | None => True end
  | image w h _ => (1 <= w)%Q /\ (1 <= h)%Q
  end.

Definition sound (s : Shape.t) : Prop := kinded s /\ well_sized (Shape.body s).

(** A property of snapshots that holds of the current one and of every entry
    of the two stacks. *)
Definition everywhere (G : Snapshot -> Prop) (st : Editor) : Prop :=
  G (shapes st) /\ Forall G (history st) /\ Forall G (future st).

(** Both stacks hold at most 50 snapshots. *)
Definition stacks_bounded (st : Editor) : Prop :=
  (length (history st) <= 50)%nat /\ (length (future st) <= 50)%nat.

(** The past stack, the current snapshot and the future stack, oldest first. *)
Definition timeline (st : Editor) : list Snapshot :=
  history st ++ shapes st :: future st.

(** No shape of [l] has the identifier [i]. *)
Definition absent (i : string) (l : Snapshot) : Prop :=
  Forall (fun b => shape_id_is i b = false) l.

(** The signed distance from the slide's edge (or centre line) that a
    direction names to the same edge (or centre line) of a shape's box. *)
Definition edge_gap (dir : Dir.t) (s : Shape.t) : Q :=
  let '(w, h) := getSize s in
  match dir with
  | Dir.left => Shape.x s
  | Dir.centerX => (Shape.x s + w / 2 - SLIDE_W / 2)%Q
  | Dir.right => (Shape.x s + w - SLIDE_W)%Q
  | Dir.top => Shape.y s
  | Dir.centerY => (Shape.y s + h / 2 - SLIDE_H / 2)%Q
  | Dir.bottom => (Shape.y s + h - SLIDE_H)%Q
  end.

(** A one-finger drag through the points [ts], one [touchmove] for each. *)
Definition touchMoves (ts : list Point) (ui : Ui) : Ui :=
  foldl (fun u t => onTouchMove [t] u) ui ts.

(** The step of an arrow key: 10 with shift, 1 without. *)
Definition arrowStep (e : KeyboardEvent.t) : Q :=
  if KeyboardEvent.shiftKey e then 10%Q else 1%Q.

(** A plain press of the right arrow key, and the same with shift. *)
Definition arrowRight : KeyboardEvent.t :=
  {| KeyboardEvent.key := "ArrowRight"; KeyboardEvent.code := "ArrowRight";
     KeyboardEvent.ctrlKey := false; KeyboardEvent.metaKey := false;
     KeyboardEvent.shiftKey := false |}.

Definition shiftArrowRight : KeyboardEvent.t :=
  {| KeyboardEvent.key := "ArrowRight"; KeyboardEvent.code := "ArrowRight";
     KeyboardEvent.ctrlKey := false; KeyboardEvent.metaKey := false;
     KeyboardEvent.shiftKey := true |}.

(** [demo] in an interface, with snapping on (the default) and off. *)
Definition demoUi : Ui := onEditor (fun _ => demo) initialUi.
Definition looseUi : Ui := onEditor (fun _ => setGridEnabled false demo) initialUi.

(** [demo] with its rectangle placed on the grid at (192, 160), and the same
    with the rectangle locked. *)
Definition griddedUi : Ui :=
  onEditor (fun _ => updateShape "rect_k3x9q2a" (position 192 160) demo) initialUi.
Definition lockedUi : Ui :=
  onEditor (fun _ => updateShape "rect_k3x9q2a" (p_locked true) demo) initialUi.

(** [narrow] in an interface with the pan mode on, while the stage is dragged
    and while one finger is down at (10, 10). *)
Definition draggingUi : Ui :=
  setIsDraggingStage true (setIsPanMode true (onEditor (fun _ => narrow) initialUi)).
Definition touchingUi : Ui :=
  setLastTouch (Some {| px := 10; py := 10 |})
    (setIsPanMode true (onEditor (fun _ => narrow) initialUi)).

(** ** Where the commits of a session come from *)

(** The shape that an add event appends. *)
Definition new_shape (ev : Event) : option Shape.t :=
  match ev with
  | EvAddRect rnd => Some (newRect rnd)
  | EvAddCircle rnd => Some (newCircle rnd)
  | EvAddText rnd => Some (newText rnd)
  | EvImageUpload rnd url w h => Some (newImage rnd url w h)
  | _ => None
  end.

(** [uid] drew an identifier that the current snapshot does not hold yet. *)
Definition fresh (ui : Ui) (ev : Event) : Prop :=
  match new_shape ev with
  | Some s => Shape.id s ∉ map Shape.id (shapes (editor ui))
  | None => True
  end.

Section Sessions.

Variable Number : string -> option Q.

(** The partials that the callbacks pass to [updateShape] for the shape [s]. *)
Inductive edit (st : Editor) (s : Shape.t) : Partial.t -> Prop :=
| edit_position nx ny : edit st s (position nx ny)
| edit_transform node : edit st s (transformPartial st s node)
| edit_input input v p : inputPartial Number s input v = Some p -> edit st s p
| edit_locked b : edit st s (p_locked b)
| edit_hidden b : edit st s (p_hidden b)
| edit_text v : edit st s (p_text v).

(** The updaters that the callbacks pass to [commit] on the event [ev]. *)
Inductive origin (ev : Event) (st : Editor) : ShapeUpdater -> Prop :=
| origin_add s : new_shape ev = Some s -> origin ev st (addShape_updater s)
| origin_update s p :
    In s (shapes st) -> edit st s p ->
    origin ev st (updateShape_updater (Shape.id s) p)
| origin_delete sel :
    origin ev st (fun prev => filter (fun s => negb (shape_id_is sel s)) prev)
| origin_forward i : origin ev st (bringForward_updater i)
| origin_backward i : origin ev st (sendBackward_updater i)
| origin_front i : origin ev st (bringToFront_updater i)
| origin_back i : origin ev st (sendToBack_updater i).

(** What an event can do to the snapshot and the stacks of the editor [st]:
    nothing, one commit, one undo or one redo. *)
Inductive doc_step (ev : Event) (st : Editor) : Editor -> Prop :=
| step_same st' :
    shapes st' = shapes st -> history st' = history st -> future st' = future st ->
    doc_step ev st st'
| step_commit f : origin ev st f -> doc_step ev st (commit (Updater f) st)
| step_commit_select f v :
    origin ev st f -> doc_step ev st (setSelectedId v (commit (Updater f) st))
| step_undo : doc_step ev st (undo st)
| step_redo : doc_step ev st (redo st).

(** The interfaces that a session can reach from the first render (with
    nothing restored from storage), through events that satisfy [ok]. *)
Inductive reachable (ok : Ui -> Event -> Prop) : Ui -> Prop :=
| reach_initial : reachable ok initialUi
| reach_event ui ev :
    reachable ok ui -> ok ui ev -> reachable ok (handle Number ev ui).

End Sessions.

(** The events that leave the snapshot and the stacks alone: the viewport,
    the pointer gestures on the stage, the selection and the grid settings. *)
Definition is_view_event (ev : Event) : bool :=
  match ev with
  | EvKeyUp _ | EvPanToggle | EvZoomIn | EvZoomOut | EvWheel _ _ _ | EvFit
  | EvResize _ | EvStage _ | EvMouseDown _ | EvMouseUp | EvMouseMove _ _
  | EvTouchStart _ _ | EvTouchEnd | EvTouchMove _ | EvLayerClick _
  | EvSnapToggle _ | EvGridSize _ | EvNodeClick _ | EvRowClick _ => true
  | _ => false
  end.

(** The grid size is in the range of its input. *)
Definition grid_in_range (st : Editor) : Prop :=
  (2 <= gridSize st /\ gridSize st <= 256)%Q.

(** A session that adds a rectangle, types 3 in the grid-size input, drags
    the rectangle's node, raises it and undoes that; [Number] is taken to
    parse the one text that the session types. *)
Definition parseThree (v : string) : option Q :=
  if String.eqb v "3" then Some 3%Q else None.

Definition sampleSession : list Event :=
  [EvAddRect "k3x9q2a"; EvGridSize "3";
   EvDragEnd 0 squeezed; EvLayer Up 0; EvUndo].

(** * Properties *)

(** ** Array helpers *)

Section Slices.
Context {A : Type}.
Implicit Types l k : list A.

Lemma slice_from_end l (n : nat) :
  (0 < n)%nat -> Js.slice l (- Z.of_nat n) None = lastn n l.
Proof.
  intros Hn. unfold Js.slice, Js.rel_index, lastn.
  destruct (Z.ltb_spec (- Z.of_nat n) 0) as [_|H]; [|lia].
  replace (Z.to_nat (Z.max (Z.of_nat (length l) + - Z.of_nat n) 0))
    with (length l - n)%nat by lia.
  apply take_ge. rewrite length_drop. lia.
Qed.

Lemma slice_prefix l (n : nat) :
  Js.slice l 0 (Some (Z.of_nat n)) = take n l.
Proof.
  unfold Js.slice, Js.rel_index. simpl.
  destruct (Z.ltb_spec (Z.of_nat n) 0) as [H|_]; [lia|].
  rewrite Nat2Z.id, Nat.sub_0_r.
  destruct (Nat.le_ge_cases n (length l)) as [H|H].
  - now rewrite Nat.min_l.
  - rewrite Nat.min_r by done. now rewrite !take_ge.
Qed.

Lemma slice_drop_last l : Js.slice l 0 (Some (-1)%Z) = take (length l - 1) l.
Proof.
  unfold Js.slice, Js.rel_index. simpl.
  replace (Z.to_nat (Z.max (Z.of_nat (length l) + -1) 0))
    with (length l - 1)%nat by lia.
  now rewrite Nat.sub_0_r.
Qed.

Lemma slice_tail l : Js.slice l 1 None = drop 1 l.
Proof.
  unfold Js.slice, Js.rel_index. simpl.
  destruct l as [|a l]; [done|]. simpl.
  rewrite drop_0. apply take_ge. lia.
Qed.

Lemma lastn_length n l : length (lastn n l) = Nat.min n (length l).
Proof. unfold lastn. rewrite length_drop. lia. Qed.

Lemma lastn_all n l : (length l <= n)%nat -> lastn n l = l.
Proof.
  intros H. unfold lastn. now replace (length l - n)%nat with 0%nat by lia.
Qed.

Lemma lastn_app n l k :
  lastn n (l ++ k) = lastn (n - length k) l ++ lastn n k.
Proof.
  unfold lastn. rewrite length_app, drop_app. f_equal.
  - destruct (Nat.le_gt_cases (length k) n) as [H|H].
    + f_equal. lia.
    + rewrite !drop_ge; [done| lia | lia].
  - f_equal. lia.
Qed.

Lemma lastn_snoc n l a : lastn n l ++ [a] = lastn (S n) (l ++ [a]).
Proof.
  rewrite lastn_app. simpl. rewrite Nat.sub_0_r. f_equal.
Qed.

Lemma lastn_lastn n m l : (n <= m)%nat -> lastn n (lastn m l) = lastn n l.
Proof.
  intros H. unfold lastn at 1 3. rewrite lastn_length.
  unfold lastn. rewrite drop_drop. f_equal. lia.
Qed.

Lemma lastn_app_exact l k : lastn (length k) (l ++ k) = k.
Proof.
  rewrite lastn_app, Nat.sub_diag. unfold lastn at 1.
  rewrite Nat.sub_0_r, drop_all. simpl. now apply lastn_all.
Qed.

End Slices.

(** ** History: one callback *)

Section HistorySteps.
Implicit Types (st : Editor) (h f : list Snapshot) (c p : Snapshot).

Lemma commit_shapes next st : shapes (commit next st) = resolve next (shapes st).
Proof. now destruct next. Qed.

Lemma commit_history next st :
  history (commit next st) = lastn 50 (history st ++ [shapes st]).
Proof.
  unfold commit. simpl.
  change (-49)%Z with (- Z.of_nat 49)%Z.
  rewrite (slice_from_end (history st) 49) by lia.
  apply lastn_snoc.
Qed.

Lemma commit_future next st : future (commit next st) = [].
Proof. reflexivity. Qed.

Lemma undo_empty st :
  history st = [] ->
  shapes (undo st) = shapes st /\ history (undo st) = []
  /\ future (undo st) = future st.
Proof. intros H. unfold undo. rewrite H. now simpl. Qed.

Lemma undo_snoc st h p :
  history st = h ++ [p] ->
  shapes (undo st) = p /\ history (undo st) = h
  /\ future (undo st) = take 50 (shapes st :: future st).
Proof.
  intros H. unfold undo. rewrite H.
  rewrite length_app. simpl length.
  replace (length h + 1 =? 0)%nat with false
    by (symmetry; apply Nat.eqb_neq; lia).
  replace (length h + 1 - 1)%nat with (length h + 0)%nat by lia.
  rewrite lookup_app_r, Nat.add_0_r, Nat.sub_diag by lia. simpl.
  change 50%Z with (Z.of_nat 50).
  rewrite slice_drop_last, (slice_prefix _ 50), length_app. simpl length.
  replace (length h + 1 - 1)%nat with (length h) by lia.
  now rewrite take_app_length.
Qed.

Lemma redo_empty st :
  future st = [] ->
  shapes (redo st) = shapes st /\ history (redo st) = history st
  /\ future (redo st) = [].
Proof. intros H. unfold redo. rewrite H. now simpl. Qed.

Lemma redo_cons st c f :
  future st = c :: f ->
  shapes (redo st) = c
  /\ history (redo st) = lastn 50 (history st ++ [shapes st])
  /\ future (redo st) = f.
Proof.
  intros H. unfold redo. rewrite H. simpl.
  change (-50)%Z with (- Z.of_nat 50)%Z.
  rewrite (slice_from_end _ 50) by lia.
  rewrite slice_tail. simpl. now rewrite drop_0.
Qed.

End HistorySteps.

(** ** History: runs of callbacks *)

Section HistoryRuns.
Implicit Types (st : Editor) (ms : list CommitArg) (c : Snapshot).

Lemma commits_snoc ms m st : commits (ms ++ [m]) st = commit m (commits ms st).
Proof. unfold commits. now rewrite foldl_app. Qed.

Lemma trace_length c ms : length (trace c ms) = length ms.
Proof. revert c. induction ms as [|m ms IH]; intros c; simpl; [done|]. now rewrite IH. Qed.

Lemma trace_snoc c ms m : trace c (ms ++ [m]) = trace c ms ++ [final c ms].
Proof.
  revert c. induction ms as [|m' ms IH]; intros c; simpl; [done|].
  now rewrite IH.
Qed.

Lemma commits_shapes ms st : shapes (commits ms st) = final (shapes st) ms.
Proof.
  induction ms as [|m ms IH] using rev_ind; [done|].
  rewrite commits_snoc, commit_shapes, IH. unfold final. now rewrite foldl_app.
Qed.

Lemma commits_future ms st : ms <> [] -> future (commits ms st) = [].
Proof.
  destruct ms as [|m ms] using rev_ind; [done|].
  intros _. now rewrite commits_snoc.
Qed.

(** After at least one commit the past stack holds the 50 most recent
    pre-commit snapshots. *)
Lemma commits_history ms st :
  ms <> [] ->
  history (commits ms st) = lastn 50 (history st ++ trace (shapes st) ms).
Proof.
  induction ms as [|m ms IH] using rev_ind; [done|]. intros _.
  rewrite commits_snoc, commit_history, trace_snoc, commits_shapes.
  destruct ms as [|m' ms'].
  - reflexivity.
  - rewrite IH by done.
    rewrite (lastn_app 50 (lastn 50 _)), lastn_lastn by (simpl; lia).
    rewrite app_assoc. now rewrite (lastn_app 50 (_ ++ _)).
Qed.

(** [k] undos pop the [k] most recent entries of the past stack, as long
    as the future stack has room for them. *)
Lemma undo_times k st :
  (length (history st) + length (future st) <= 50)%nat ->
  let st' := times k undo st in
  history st' = take (length (history st) - k) (history st)
  /\ shapes st' :: future st'
     = drop (length (history st) - k) (history st) ++ shapes st :: future st.
Proof.
  revert st. induction k as [|k IH]; intros st Hlen; simpl.
  - rewrite Nat.sub_0_r, take_ge, drop_all by lia. done.
  - destruct (history st) as [|p h _] eqn:Hh using rev_ind.
    + destruct (undo_empty st Hh) as (Hs & Hh' & Hf).
      destruct (IH (undo st)) as [IH1 IH2].
      { rewrite Hh', Hf. simpl. simpl in Hlen. lia. }
      rewrite Hh', Hs, Hf in *. simpl in *. done.
    + destruct (undo_snoc st h p Hh) as (Hs & Hh' & Hf).
      rewrite length_app in Hlen. simpl in Hlen.
      rewrite take_ge in Hf by (simpl; lia).
      destruct (IH (undo st)) as [IH1 IH2].
      { rewrite Hh', Hf. simpl. lia. }
      rewrite Hh', Hs, Hf in *. rewrite length_app. simpl length.
      replace (length h + 1 - S k)%nat with (length h - k)%nat by lia.
      split.
      * rewrite IH1. rewrite take_app_le by lia. done.
      * rewrite IH2. rewrite drop_app_le by lia.
        now rewrite <- app_assoc.
Qed.

(** Redos walk down the future stack. *)
Lemma redo_times (ys : list Snapshot) st f :
  future st = ys ++ f ->
  let st' := times (length ys) redo st in
  shapes st' = default (shapes st) (last ys) /\ future st' = f.
Proof.
  revert st. induction ys as [|y ys IH]; intros st Hf; simpl.
  - done.
  - destruct (redo_cons st y (ys ++ f) Hf) as (Hs & _ & Hf').
    destruct (IH (redo st) Hf') as [IH1 IH2]. split; [|done].
    rewrite IH1, Hs, last_cons. now destruct (last ys).
Qed.

End HistoryRuns.

(** ** History: the claims *)

(** C1, as stated, fails past the bound of the past stack: after 51 drags of
    the rectangle of [demo], 51 undos stop at the snapshot after the first
    drag (x = 1), not at the starting snapshot (x = 200). *)
Lemma undo_past_bound_loses_start :
  exists s s0,
    shapes (times 51 undo (commits (drags 51) demo)) = [s]
    /\ shapes demo = [s0]
    /\ (Shape.x s == 1)%Q /\ (Shape.x s0 == 200)%Q
    /\ ~ (Shape.x s == Shape.x s0)%Q.
Proof.
  do 2 eexists. split; [vm_compute; reflexivity|].
  split; [vm_compute; reflexivity|].
  split; [reflexivity|]. split; [reflexivity|].
  vm_compute. discriminate.
Qed.

(** C1, amended: for every editor state and every sequence of at most 50
    commits, as many undos as commits restore the starting snapshot, and as
    many redos after them restore the final snapshot. *)
Theorem history_round_trip (st : Editor) (ms : list CommitArg) :
  (length ms <= 50)%nat ->
  let n := length ms in
  let done_ := commits ms st in
  shapes (times n undo done_) = shapes st
  /\ shapes (times n redo (times n undo done_)) = shapes done_.
Proof.
  intros Hn. cbv zeta.
  destruct (decide (ms = [])) as [->|Hne]; [done|].
  assert (Ht : exists t, trace (shapes st) ms = shapes st :: t)
    by (destruct ms; [done|simpl; eauto]).
  destruct Ht as [t Ht].
  set (n := length ms) in *. set (done_ := commits ms st).
  pose proof (commits_history ms st Hne) as Hh.
  pose proof (commits_future ms st Hne) as Hf.
  fold done_ in Hh, Hf.
  destruct (undo_times n done_) as [_ Hu].
  { rewrite Hh, Hf, lastn_length. cbn [length]. lia. }
  assert (Hlast : drop (length (history done_) - n) (history done_)
                  = trace (shapes st) ms).
  { change (lastn n (history done_) = trace (shapes st) ms).
    rewrite Hh, lastn_lastn by lia.
    unfold n. rewrite <- (trace_length (shapes st) ms). apply lastn_app_exact. }
  rewrite Hlast, Hf, Ht in Hu. simpl in Hu. injection Hu as Hs Hfut.
  split; [exact Hs|].
  destruct (redo_times (future (times n undo done_)) (times n undo done_) [])
    as [Hr _]; [now rewrite app_nil_r|].
  assert (Hlen : length (future (times n undo done_)) = n).
  { apply (f_equal length) in Ht. rewrite trace_length in Ht. simpl in Ht.
    rewrite Hfut, length_app. simpl. unfold n. lia. }
  rewrite Hlen in Hr. rewrite Hr, Hfut, last_snoc. reflexivity.
Qed.

(** Three drags of the rectangle of [demo], undone and redone. *)
Lemma history_round_trip_witness :
  (length (drags 3) <= 50)%nat
  /\ shapes (times 3 undo (commits (drags 3) demo)) = shapes demo
  /\ shapes (times 3 redo (times 3 undo (commits (drags 3) demo)))
     = shapes (commits (drags 3) demo).
Proof.
  split; [vm_compute; lia|].
  apply (history_round_trip demo (drags 3)). vm_compute. lia.
Defined.

(** C6: from an empty past stack, 60 commits leave exactly 50 entries on it,
    the snapshots before the 50 most recent commits; and whatever the number
    [k] of undos after that, the current snapshot is number [60 - min k 50]
    of the run and the past stack is a prefix of those 50 entries, so the
    snapshots before the 10 oldest commits are never reached. *)
Theorem bounded_history (st : Editor) (ms : list CommitArg) :
  history st = [] ->
  length ms = 60%nat ->
  let done_ := commits ms st in
  let kept := drop 10 (trace (shapes st) ms) in
  length (history done_) = 50%nat
  /\ history done_ = kept
  /\ forall k,
       snapshots (shapes st) ms !! (60 - Nat.min k 50)%nat
         = Some (shapes (times k undo done_))
       /\ history (times k undo done_) = take (50 - k) kept.
Proof.
  intros Hempty Hlen. cbv zeta.
  assert (Hne : ms <> []) by (intros ->; discriminate Hlen).
  pose proof (commits_history ms st Hne) as Hh.
  pose proof (commits_future ms st Hne) as Hf.
  pose proof (trace_length (shapes st) ms) as Ht. rewrite Hlen in Ht.
  rewrite Hempty in Hh. simpl in Hh. unfold lastn in Hh. rewrite Ht in Hh.
  change (60 - 50)%nat with 10%nat in Hh.
  assert (Hl : length (history (commits ms st)) = 50%nat)
    by (rewrite Hh, length_drop; lia).
  split; [exact Hl|]. split; [exact Hh|]. intros k.
  destruct (undo_times k (commits ms st)) as [Hu1 Hu2].
  { rewrite Hl, Hf. simpl. lia. }
  rewrite Hl in Hu1, Hu2. split.
  - rewrite Hh, Hf, drop_drop in Hu2.
    unfold snapshots. rewrite <- commits_shapes.
    replace (60 - Nat.min k 50)%nat with (10 + (50 - k) + 0)%nat by lia.
    rewrite <- lookup_drop, drop_app_le by (rewrite Ht; lia).
    rewrite <- Hu2. reflexivity.
  - now rewrite Hu1, Hh.
Qed.

(** Sixty commits on a fresh editor: one add and 59 drags. *)
Lemma bounded_history_witness :
  history initial = []
  /\ length (session 59) = 60%nat
  /\ length (history (commits (session 59) initial)) = 50%nat.
Proof.
  split; [reflexivity|]. split; [reflexivity|].
  apply (bounded_history initial (session 59)); reflexivity.
Defined.

(** C7: whatever the history state, and so also after undos that left the
    future stack non-empty, a commit leaves the future stack empty:
    [canRedo] is false right after every commit. *)
Theorem redo_invalidation (st : Editor) (next : CommitArg) :
  future (commit next st) = [] /\ canRedo (commit next st) = false.
Proof. split; reflexivity. Qed.

(** ** Lookups by identifier *)

Section Lookups.
Implicit Types (prev : Snapshot) (s : Shape.t) (i : string).

Lemma shape_id_is_true i s : shape_id_is i s = true <-> Shape.id s = i.
Proof. unfold shape_id_is. apply String.eqb_eq. Qed.

Lemma shape_id_is_false i s : shape_id_is i s = false <-> Shape.id s <> i.
Proof. unfold shape_id_is. apply String.eqb_neq. Qed.

(** With distinct identifiers, the identifier of the last shape resolves to
    the last index. *)
Lemma findIndex_last prev s :
  unique_ids (prev ++ [s]) ->
  Js.findIndex (shape_id_is (Shape.id s)) (prev ++ [s]) = Z.of_nat (length prev).
Proof.
  unfold unique_ids. induction prev as [|a prev IH]; simpl; intros Hnd.
  - now rewrite (proj2 (shape_id_is_true _ _) eq_refl).
  - apply NoDup_cons in Hnd as [Hnotin Hnd].
    rewrite (proj2 (shape_id_is_false (Shape.id s) a)).
    + rewrite IH by done.
      destruct (Z.ltb_spec (Z.of_nat (length prev)) 0); lia.
    + intros Heq. apply Hnotin. rewrite Heq.
      apply list_elem_of_In, in_map, in_or_app. right. now left.
Qed.

Lemma find_none_map i prev (g : Shape.t -> Shape.t) :
  Js.find (shape_id_is i) prev = None ->
  map (fun s => if shape_id_is i s then g s else s) prev = prev.
Proof.
  induction prev as [|a prev IH]; simpl; [done|].
  destruct (shape_id_is i a); [discriminate|].
  intros H. now rewrite IH.
Qed.

(** [bringForward] on the topmost shape resolves to the guard. *)
Lemma bringForward_updater_top prev s :
  unique_ids prev -> last prev = Some s ->
  bringForward_updater (Shape.id s) prev = prev.
Proof.
  intros Hnd Hlast. apply last_Some in Hlast as [l ->].
  unfold bringForward_updater. rewrite findIndex_last by done.
  rewrite length_app. simpl length.
  replace (Z.of_nat (length l) =? Z.of_nat (length l + 1) - 1)%Z with true
    by (symmetry; apply Z.eqb_eq; lia).
  now rewrite orb_true_r.
Qed.

(** [sendBackward] on the bottommost shape resolves to the guard. *)
Lemma sendBackward_updater_bottom prev s :
  head prev = Some s -> sendBackward_updater (Shape.id s) prev = prev.
Proof.
  destruct prev as [|a prev]; [done|]. intros [= ->].
  unfold sendBackward_updater. simpl.
  now rewrite (proj2 (shape_id_is_true _ _) eq_refl).
Qed.

Lemma updateShape_updater_absent i partial prev :
  Js.find (shape_id_is i) prev = None ->
  updateShape_updater i partial prev = prev.
Proof. apply find_none_map. Qed.

End Lookups.

(** ** Layer operations and silent commits: the claims *)

(** C9, as stated, fails for [bringForward]: in [collided] the topmost shape
    is a rectangle whose identifier the bottommost rectangle carries too;
    [findIndex] resolves the identifier to index 0, so [bringForward] on the
    topmost shape swaps the shapes at index 0 and 1. *)
Lemma bringForward_top_with_duplicate_id_swaps :
  map Shape.id (shapes collided)
  = ["rect_k3x9q2a"; "circle_p0d41xw"; "rect_k3x9q2a"]
  /\ last (shapes collided) = Some (newRect "k3x9q2a")
  /\ map Shape.id (shapes (bringForward (Shape.id (newRect "k3x9q2a")) collided))
     = ["circle_p0d41xw"; "rect_k3x9q2a"; "rect_k3x9q2a"]
  /\ shapes (bringForward (Shape.id (newRect "k3x9q2a")) collided)
     <> shapes collided.
Proof.
  split; [reflexivity|]. split; [reflexivity|]. split; [reflexivity|].
  intros H. apply (f_equal (map Shape.id)) in H. vm_compute in H. discriminate H.
Qed.

(** C9, amended: in a snapshot with pairwise distinct identifiers,
    [bringForward] on the last (topmost) shape leaves the sequence as it was;
    and in every snapshot [sendBackward] on the shape at index 0 (bottommost)
    leaves the sequence as it was. *)
Theorem reorder_boundary_noops (st : Editor) (s : Shape.t) :
  (unique_ids (shapes st) -> last (shapes st) = Some s ->
   shapes (bringForward (Shape.id s) st) = shapes st)
  /\ (head (shapes st) = Some s ->
      shapes (sendBackward (Shape.id s) st) = shapes st).
Proof.
  split.
  - intros Hnd Hlast. unfold bringForward. rewrite commit_shapes. simpl.
    now apply bringForward_updater_top.
  - intros Hhead. unfold sendBackward. rewrite commit_shapes. simpl.
    now apply sendBackward_updater_bottom.
Qed.

(** The only shape of [demo] is both its topmost and its bottommost one. *)
Lemma reorder_boundary_noops_witness :
  shapes (bringForward (uid "rect" "k3x9q2a") demo) = shapes demo
  /\ shapes (sendBackward (uid "rect" "k3x9q2a") demo) = shapes demo.
Proof.
  split.
  - apply (proj1 (reorder_boundary_noops demo (newRect "k3x9q2a"))).
    + repeat constructor. vm_compute. inversion 1.
    + reflexivity.
  - apply (proj2 (reorder_boundary_noops demo (newRect "k3x9q2a"))).
    reflexivity.
Defined.

Lemma unchanged_commit_spends_slot (st : Editor) (f : ShapeUpdater) :
  f (shapes st) = shapes st -> spent_slot st (commit (Updater f) st).
Proof.
  intros Hf. unfold spent_slot.
  pose proof (commit_history (Updater f) st) as Hh.
  assert (Hsnoc : history (commit (Updater f) st)
                  = lastn 49 (history st) ++ [shapes st])
    by (rewrite Hh; symmetry; apply lastn_snoc).
  destruct (undo_snoc _ _ _ Hsnoc) as (Hu & _ & _).
  assert (Hl : length (history (commit (Updater f) st))
               = Nat.min 50 (S (length (history st)))).
  { rewrite Hh, lastn_length, length_app. cbn [length]. lia. }
  repeat split.
  - exact Hf.
  - rewrite Hsnoc. apply last_snoc.
  - exact Hl.
  - unfold canUndo. rewrite Hl. now destruct (length (history st)).
  - rewrite Hu. simpl. now rewrite Hf.
Qed.

(** C10: a commit whose updater returns the snapshot as it was still pushes
    that snapshot on the past stack (trimmed to 50) and empties the future
    stack, so that [canRedo] is false and the next undo restores a snapshot
    equal to the current one; so do in particular [bringForward] on the
    topmost shape and [updateShape] with an identifier that is absent. *)
Theorem silent_commit_spends_history (st : Editor) :
  (forall f : ShapeUpdater,
      f (shapes st) = shapes st -> spent_slot st (commit (Updater f) st))
  /\ (forall s,
        unique_ids (shapes st) -> last (shapes st) = Some s ->
        spent_slot st (bringForward (Shape.id s) st))
  /\ (forall i partial,
        Js.find (shape_id_is i) (shapes st) = None ->
        spent_slot st (updateShape i partial st)).
Proof.
  split; [|split].
  - apply unchanged_commit_spends_slot.
  - intros s Hnd Hlast. apply unchanged_commit_spends_slot.
    now apply bringForward_updater_top.
  - intros i partial Habs. apply unchanged_commit_spends_slot.
    now apply updateShape_updater_absent.
Qed.

(** On [demo]: raising the topmost shape, and updating an absent circle. *)
Lemma silent_commit_spends_history_witness :
  spent_slot demo (bringForward (uid "rect" "k3x9q2a") demo)
  /\ spent_slot demo (updateShape "circle_0000000" (position 0 0) demo).
Proof.
  split.
  - apply (proj1 (proj2 (silent_commit_spends_history demo)) (newRect "k3x9q2a")).
    + repeat constructor. vm_compute. inversion 1.
    + reflexivity.
  - apply (proj2 (proj2 (silent_commit_spends_history demo))). reflexivity.
Defined.

(** ** Adding shapes: the claim *)

(** C2, as stated, fails: [demo] already holds a rectangle with identifier
    [rect_k3x9q2a]; adding a rectangle for which [uid] draws the same digits
    is not rejected, and the snapshot grows to two shapes with that
    identifier. *)
Lemma addRect_duplicate_id_accepted :
  map Shape.id (shapes demo) = [uid "rect" "k3x9q2a"]
  /\ map Shape.id (shapes (addRect "k3x9q2a" demo))
     = [uid "rect" "k3x9q2a"; uid "rect" "k3x9q2a"].
Proof. split; reflexivity. Qed.

(** C2, amended: adding a shape appends it as the last (topmost) element of
    the snapshot and selects it, whether or not its identifier is already in
    the snapshot; no add is rejected and the snapshot always grows by one. *)
Theorem addShape_always_appends (s : Shape.t) (st : Editor) :
  shapes (addShape s st) = shapes st ++ [s]
  /\ length (shapes (addShape s st)) = S (length (shapes st))
  /\ selectedId (addShape s st) = Some (Shape.id s)
  /\ history (addShape s st) = lastn 50 (history st ++ [shapes st])
  /\ (forall rnd, shapes (addRect rnd st) = shapes st ++ [newRect rnd])
  /\ (forall rnd, shapes (addCircle rnd st) = shapes st ++ [newCircle rnd])
  /\ (forall rnd, shapes (addText rnd st) = shapes st ++ [newText rnd])
  /\ (forall rnd url w h,
        shapes (onImageUpload rnd url w h st) = shapes st ++ [newImage rnd url w h]).
Proof.
  split; [reflexivity|]. split.
  { simpl. unfold Js.structuredClone, addShape_updater.
    rewrite length_app. simpl. lia. }
  split; [reflexivity|]. split.
  { exact (commit_history (Updater (addShape_updater s)) st). }
  repeat split.
Qed.

(** ** Viewport: the claims *)

Section Viewport.
Open Scope Q_scope.

Lemma clamp_range v lo hi : lo <= hi -> lo <= clamp v lo hi /\ clamp v lo hi <= hi.
Proof.
  intros H. unfold clamp. split.
  - apply Q.le_max_l.
  - apply Q.max_lub; [exact H|apply Q.le_min_l].
Qed.

Lemma falsy_number_false n : falsy_number n = false <-> ~ n == 0.
Proof.
  unfold falsy_number. rewrite <- Qeq_bool_iff.
  destruct (Qeq_bool n 0); split; congruence.
Qed.

Lemma zoomBy_mounted factor center stage st :
  stageRef st = Some stage ->
  let pointer := zoomAnchor center stage st in
  let newScale := clamp (scale st * factor) (1 # 10) 4 in
  scale (zoomBy factor center st) = newScale
  /\ offset (zoomBy factor center st)
     = {| px := px pointer - px (toDocument pointer (scale st) (offset st)) * newScale;
          py := py pointer - py (toDocument pointer (scale st) (offset st)) * newScale |}.
Proof. intros H. unfold zoomBy. rewrite H. split; reflexivity. Qed.

Lemma fitToScreen_nonzero st :
  ~ size_width (containerSize st) == 0 ->
  ~ size_height (containerSize st) == 0 ->
  scale (fitToScreen st)
  = Qmin (size_width (containerSize st) / SLIDE_W)
         (size_height (containerSize st) / SLIDE_H).
Proof.
  intros Hw Hh. unfold fitToScreen.
  apply falsy_number_false in Hw, Hh. now rewrite Hw, Hh.
Qed.

End Viewport.

(** C3, as stated, fails for [fitToScreen]: in a container of 150 x 300
    pixels the fitted scale is 150/1920, below 0.1. *)
Lemma fitToScreen_scale_below_range :
  ~ scale_in_range (scale (fitToScreen narrow)).
Proof.
  intros [H _]. revert H. apply Qlt_not_le. reflexivity.
Qed.

(** C3, amended: after [zoomBy] on a mounted stage, with any factor, the scale
    lies in [0.1, 4] (without a stage [zoomBy] changes nothing); after
    [fitToScreen] with a nonzero container size the
    scale is min(width/1920, height/1080), not clamped, and it lies in
    [0.1, 4] exactly when width >= 192, height >= 108 and (width <= 7680 or
    height <= 4320). *)
Theorem viewport_scale_range (st : Editor) :
  (forall factor center stage,
      stageRef st = Some stage ->
      scale_in_range (scale (zoomBy factor center st)))
  /\ (forall factor center, stageRef st = None -> zoomBy factor center st = st)
  /\ (~ (size_width (containerSize st) == 0)%Q ->
      ~ (size_height (containerSize st) == 0)%Q ->
      (scale (fitToScreen st)
       == Qmin (size_width (containerSize st) / 1920)
               (size_height (containerSize st) / 1080))%Q
      /\ (scale_in_range (scale (fitToScreen st)) <->
          (192 <= size_width (containerSize st)
           /\ 108 <= size_height (containerSize st)
           /\ (size_width (containerSize st) <= 7680
               \/ size_height (containerSize st) <= 4320))%Q)).
Proof.
  split.
  - intros factor center stage Hs.
    destruct (zoomBy_mounted factor center stage st Hs) as [-> _].
    apply clamp_range. lra.
  - split; [intros factor center Hs; unfold zoomBy; now rewrite Hs|].
    intros Hw Hh. rewrite (fitToScreen_nonzero st Hw Hh).
    split; [reflexivity|].
    unfold scale_in_range, SLIDE_W, SLIDE_H.
    rewrite Q.min_glb_iff, Q.min_le_iff.
    unfold Qdiv.
    change (/ 1920)%Q with (1 # 1920)%Q. change (/ 1080)%Q with (1 # 1080)%Q.
    generalize (size_width (containerSize st)) (size_height (containerSize st)).
    intros w h. split.
    + intros [[Hw1 Hh1] [Hw2|Hh2]].
      * split; [lra|]. split; [lra|]. left. lra.
      * split; [lra|]. split; [lra|]. right. lra.
    + intros (Hw1 & Hh1 & [Hw2|Hh2]).
      * split; [split; lra|]. left. lra.
      * split; [split; lra|]. right. lra.
Qed.

(** On [narrow]: a zoom step stays in range, the fit does not. *)
Lemma viewport_scale_range_witness :
  scale_in_range (scale (zoomBy (11 # 10) None narrow))
  /\ ~ scale_in_range (scale (fitToScreen narrow)).
Proof.
  split.
  - apply (proj1 (viewport_scale_range narrow) (11 # 10)%Q None
             {| getPointerPosition := None |}).
    reflexivity.
  - intros Hr.
    apply (proj2 (proj2 (viewport_scale_range narrow))) in Hr.
    + destruct Hr as [Hw _]. revert Hw. apply Qlt_not_le. reflexivity.
    + vm_compute. discriminate.
    + vm_compute. discriminate.
Defined.



(** ** Grid, alignment and resize: the claims *)

Section Grid.
Open Scope Q_scope.

Lemma Qfloor_unique (v : Q) (k : Z) :
  inject_Z k <= v -> v < inject_Z (k + 1) -> Qfloor v = k.
Proof.
  intros Hlo Hhi.
  pose proof (Qfloor_le v) as H1. pose proof (Qlt_floor v) as H2.
  assert (Ha : (Qfloor v < k + 1)%Z)
    by (rewrite Zlt_Qlt; eapply Qle_lt_trans; eassumption).
  assert (Hb : (k < Qfloor v + 1)%Z)
    by (rewrite Zlt_Qlt; eapply Qle_lt_trans; eassumption).
  lia.
Qed.

Lemma Math_round_integer (v : Q) (k : Z) :
  v == inject_Z k -> Js.Math_round v == inject_Z k.
Proof.
  intros Hv. unfold Js.Math_round.
  rewrite (Qfloor_unique (v + (1 # 2)) k); [reflexivity| |].
  - rewrite Hv. lra.
  - rewrite Hv, inject_Z_plus. change (inject_Z 1) with 1. lra.
Qed.

Lemma snap_disabled st v : gridEnabled st = false -> snap st v = v.
Proof. intros H. unfold snap. now rewrite H. Qed.

(** A value on the grid stays where it is. *)
Lemma snap_on_grid st v (k : Z) :
  0 < gridSize st -> v == inject_Z k * gridSize st -> snap st v == v.
Proof.
  intros Hg Hv. unfold snap. destruct (gridEnabled st); [|reflexivity].
  rewrite (Math_round_integer (v / gridSize st) k).
  - now rewrite Hv.
  - rewrite Hv. field. lra.
Qed.

End Grid.

Section Updates.
Implicit Types (prev : Snapshot) (s : Shape.t) (i : string).

Lemma find_Some i prev s :
  Js.find (shape_id_is i) prev = Some s -> Shape.id s = i /\ In s prev.
Proof.
  induction prev as [|a prev IH]; simpl; [done|].
  destruct (shape_id_is i a) eqn:Ha.
  - intros [= ->]. split; [now apply shape_id_is_true|now left].
  - intros H. destruct (IH H). split; [done|now right].
Qed.

(** The shape an identifier resolves to, after an update of that identifier. *)
Lemma find_updateShape i partial prev s :
  Js.find (shape_id_is i) prev = Some s ->
  Js.find (shape_id_is i) (updateShape_updater i partial prev)
  = Some (spread s partial).
Proof.
  unfold updateShape_updater.
  induction prev as [|a prev IH]; simpl; [done|].
  destruct (shape_id_is i a) eqn:Ha.
  - intros [= ->]. change (shape_id_is i (spread s partial)) with (shape_id_is i s).
    now rewrite Ha.
  - rewrite Ha. exact IH.
Qed.

(** An update keeps every shape at its index. *)
Lemma lookup_updateShape i partial prev (n : nat) s :
  prev !! n = Some s ->
  updateShape_updater i partial prev !! n
  = Some (if shape_id_is i s then spread s partial else s).
Proof.
  intros H. unfold updateShape_updater.
  change (map ?g prev) with (g <$> prev).
  now rewrite list_lookup_fmap, H.
Qed.

End Updates.

(** C4, as stated, fails: with the grid on (size 32), aligning the rectangle
    of [demo] to the left moves its y coordinate, on the axis the direction
    does not align, from 150 to 160. *)
Lemma align_left_moves_y :
  map Shape.y (shapes demo) = [150%Q]
  /\ exists y', map Shape.y (shapes (alignSelected Dir.left demo)) = [y']
              /\ (y' == 160)%Q /\ ~ (y' == 150)%Q.
Proof.
  split; [reflexivity|]. eexists. split; [vm_compute; reflexivity|].
  split; vm_compute; [reflexivity|discriminate].
Qed.

(** C4, amended: for the selected shape and every direction, [alignSelected]
    sets the coordinate on the axis the direction does not align to the snap
    of its prior value; so that coordinate keeps its prior value when grid
    snapping is off, and when the prior value is a multiple of the (positive)
    grid size. *)
Theorem align_orthogonal_axis (st : Editor) (dir : Dir.t) (sel : string) (s : Shape.t) :
  truthy_id (selectedId st) = Some sel ->
  Js.find (shape_id_is sel) (shapes st) = Some s ->
  exists s',
    Js.find (shape_id_is sel) (shapes (alignSelected dir st)) = Some s'
    /\ orthogonal dir s' = snap st (orthogonal dir s)
    /\ (gridEnabled st = false -> orthogonal dir s' = orthogonal dir s)
    /\ (forall k : Z,
          (0 < gridSize st)%Q ->
          (orthogonal dir s == inject_Z k * gridSize st)%Q ->
          (orthogonal dir s' == orthogonal dir s)%Q).
Proof.
  intros Hsel Hfind. destruct (find_Some _ _ _ Hfind) as [Hid _].
  unfold alignSelected. rewrite Hsel, Hfind.
  destruct (alignTarget dir s) as [nx ny] eqn:Ht.
  assert (Ho : orthogonal dir (spread s (position (snap st nx) (snap st ny)))
               = snap st (orthogonal dir s)).
  { unfold alignTarget in Ht. destruct (getSize s) as [w h].
    unfold orthogonal. destruct dir; simpl; injection Ht as <- <-; reflexivity. }
  eexists. split.
  { unfold updateShape. rewrite commit_shapes, Hid. simpl.
    apply find_updateShape, Hfind. }
  split; [exact Ho|]. split.
  - intros Hoff. rewrite Ho. now apply snap_disabled.
  - intros k Hg Hk. rewrite Ho. eapply snap_on_grid; eassumption.
Qed.

(** Centring the rectangle of [demo] horizontally. *)
Lemma align_orthogonal_axis_witness :
  exists s',
    Js.find (shape_id_is (uid "rect" "k3x9q2a"))
            (shapes (alignSelected Dir.centerX demo)) = Some s'
    /\ Shape.y s' = snap demo 150.
Proof.
  destruct (align_orthogonal_axis demo Dir.centerX (uid "rect" "k3x9q2a")
              (newRect "k3x9q2a")) as (s' & Hf & Ho & _).
  - reflexivity.
  - reflexivity.
  - exists s'. split; [exact Hf|exact Ho].
Defined.

Lemma scaled_body_floors (b : Body) (sx sy : Q) : size_floors (scaled_body b sx sy).
Proof.
  destruct b; simpl; try split; try apply Q.le_max_l.
  eexists. split; [reflexivity|apply Q.le_max_l].
Qed.

Lemma spread_transformPartial_body (st : Editor) (s : Shape.t) (node : KonvaNode) :
  Shape.body (spread s (transformPartial st s node))
  = scaled_body (Shape.body s) (node_scaleX node) (node_scaleY node).
Proof. unfold transformPartial. simpl. now destruct (Shape.body s). Qed.

(** C8: at a transform end with scale factors [(sx, sy)] on the node of the
    shape [s] at index [n], the node's scale is reset to 1 and the committed
    snapshot holds at index [n] the shape with, for its kind, the absolute
    sizes [size * factor] floored at the kind's minimum (10 for the sides of a
    rectangle or an image, 5 for a radius, 50 for a text width), its
    identifier and the other fields of its kind being as before; the model of
    a shape has no scale field. *)
Theorem transform_end_stores_floored_size
  (st : Editor) (s : Shape.t) (node : KonvaNode) (n : nat) :
  shapes st !! n = Some s ->
  let node' := fst (onTransformEnd s node st) in
  let st' := snd (onTransformEnd s node st) in
  node_scaleX node' = 1%Q /\ node_scaleY node' = 1%Q
  /\ exists s',
      shapes st' !! n = Some s'
      /\ Shape.id s' = Shape.id s
      /\ Shape.body s'
         = scaled_body (Shape.body s) (node_scaleX node) (node_scaleY node)
      /\ size_floors (Shape.body s')
      /\ Shape.rotation s' = node_rotation node
      /\ Shape.x s' = snap st (node_x node)
      /\ Shape.y s' = snap st (node_y node).
Proof.
  intros Hn. cbv zeta. split; [reflexivity|]. split; [reflexivity|].
  exists (spread s (transformPartial st s node)).
  split.
  { unfold onTransformEnd, updateShape. simpl snd.
    rewrite commit_shapes. simpl resolve.
    rewrite (lookup_updateShape _ _ _ n s Hn).
    now rewrite (proj2 (shape_id_is_true (Shape.id s) s) eq_refl). }
  split; [reflexivity|].
  rewrite spread_transformPartial_body.
  split; [reflexivity|]. split; [apply scaled_body_floors|].
  unfold transformPartial. now destruct (Shape.body s).
Qed.

(** The rectangle of [demo] under [squeezed]: the height hits the floor. *)
Lemma transform_end_stores_floored_size_witness :
  exists s',
    shapes (snd (onTransformEnd (newRect "k3x9q2a") squeezed demo)) !! 0%nat = Some s'
    /\ Shape.body s'
       = rect (Qmax 10 (320 * 2)) (Qmax 10 (180 * (1 # 100)))
              "#ffd166" (Some "#111827") (Some 2%Q) (Some 12%Q).
Proof.
  destruct (transform_end_stores_floored_size demo (newRect "k3x9q2a") squeezed 0)
    as (_ & _ & s' & Hl & _ & Hb & _).
  - reflexivity.
  - exists s'. split; [exact Hl|exact Hb].
Defined.

(** ** The model on the editor's own examples *)

(** A rectangle 320 wide centred on the 1920-wide slide lands at x = 800,
    which is on the 32-pixel grid. *)
Example align_centerX_demo :
  map Shape.x (shapes (alignSelected Dir.centerX demo)) = [(25 # 1) * 32]%Q.
Proof. reflexivity. Qed.

(** Add a rectangle at x = 200, move it to x = 500, undo, redo. *)
Example move_undo_redo :
  let moved := updateShape (uid "rect" "k3x9q2a") (position 500 150) demo in
  map Shape.x (shapes moved) = [500%Q]
  /\ map Shape.x (shapes (undo moved)) = [200%Q]
  /\ map Shape.x (shapes (redo (undo moved))) = [500%Q]
  /\ selectedId (undo moved) = None.
Proof. repeat split. Qed.

(** The layer operations on rectangle, circle, text (bottom to top). *)
Example layers_stacked :
  map Shape.id (shapes stacked) = ["rect_k3x9q2a"; "circle_p0d41xw"; "text_7hq02mz"]
  /\ map Shape.id (shapes (bringForward "rect_k3x9q2a" stacked))
     = ["circle_p0d41xw"; "rect_k3x9q2a"; "text_7hq02mz"]
  /\ map Shape.id (shapes (sendBackward "text_7hq02mz" stacked))
     = ["rect_k3x9q2a"; "text_7hq02mz"; "circle_p0d41xw"]
  /\ map Shape.id (shapes (bringToFront "rect_k3x9q2a" stacked))
     = ["circle_p0d41xw"; "text_7hq02mz"; "rect_k3x9q2a"]
  /\ map Shape.id (shapes (sendToBack "text_7hq02mz" stacked))
     = ["text_7hq02mz"; "rect_k3x9q2a"; "circle_p0d41xw"]
  /\ map Shape.id (shapes (bringForward "text_7hq02mz" stacked))
     = map Shape.id (shapes stacked)
  /\ map Shape.id (shapes (deleteSelected stacked))
     = ["rect_k3x9q2a"; "circle_p0d41xw"].
Proof. repeat split. Qed.

(** A wheel step towards the user zooms out by 0.9 around the pointer. *)
Example wheel_zoom_out :
  (scale (onWheel 120 75 150 narrow) == 9 # 10)%Q
  /\ (px (offset (onWheel 120 75 150 narrow)) == 75 # 10)%Q.
Proof. split; reflexivity. Qed.

(** * Further properties *)

(** ** History: undo and redo as inverses *)

(** X1: when the past stack is not empty and neither stack is over its
    bound, an undo followed by a redo restores the snapshot and both stacks;
    the selection is cleared. *)
Theorem undo_then_redo (st : Editor) :
  history st <> [] ->
  (length (history st) <= 50)%nat ->
  (length (future st) < 50)%nat ->
  let st' := redo (undo st) in
  shapes st' = shapes st /\ history st' = history st
  /\ future st' = future st /\ selectedId st' = None.
Proof.
  intros Hne Hh Hf. cbv zeta.
  destruct (history st) as [|p h _] eqn:Hst using rev_ind; [done|].
  destruct (undo_snoc st h p Hst) as (Hs & Hh' & Hf').
  rewrite take_ge in Hf' by (simpl; lia).
  destruct (redo_cons (undo st) _ _ Hf') as (Hs2 & Hh2 & Hf2).
  rewrite Hs2, Hh2, Hf2, Hh', Hs. repeat split.
  apply lastn_all. exact Hh.
Qed.

(** One move of the rectangle of [demo], undone and redone. *)
Lemma undo_then_redo_witness :
  shapes (redo (undo (commits (drags 1) demo))) = shapes (commits (drags 1) demo).
Proof.
  apply (undo_then_redo (commits (drags 1) demo)).
  - discriminate.
  - vm_compute. lia.
  - vm_compute. lia.
Defined.

(** X2: when the future stack is not empty and neither stack is over its
    bound, a redo followed by an undo restores the snapshot and both stacks. *)
Theorem redo_then_undo (st : Editor) :
  future st <> [] ->
  (length (history st) < 50)%nat ->
  (length (future st) <= 50)%nat ->
  let st' := undo (redo st) in
  shapes st' = shapes st /\ history st' = history st
  /\ future st' = future st /\ selectedId st' = None.
Proof.
  intros Hne Hh Hf. cbv zeta.
  destruct (future st) as [|c f] eqn:Hst; [done|].
  destruct (redo_cons st c f Hst) as (Hs & Hh' & Hf').
  rewrite lastn_all in Hh' by (rewrite length_app; simpl; lia).
  destruct (undo_snoc (redo st) _ _ Hh') as (Hs2 & Hh2 & Hf2).
  rewrite Hs2, Hh2, Hf2, Hf', Hs. repeat split.
  apply take_ge. simpl in *. lia.
Qed.

(** The undone move of the rectangle of [demo], redone and undone again. *)
Lemma redo_then_undo_witness :
  shapes (undo (redo (undo (commits (drags 1) demo))))
  = shapes (undo (commits (drags 1) demo)).
Proof.
  apply (redo_then_undo (undo (commits (drags 1) demo))).
  - discriminate.
  - vm_compute. lia.
  - vm_compute. lia.
Defined.

(** X3: undo and redo only move the cursor along the timeline (past stack,
    current snapshot, future stack): as long as the stack they push on has
    room, the timeline is the same after as before, also when the stack they
    pop is empty; a commit drops the future and appends the new snapshot. *)
Theorem timeline_conserved (st : Editor) :
  ((length (future st) < 50)%nat -> timeline (undo st) = timeline st)
  /\ ((length (history st) < 50)%nat -> timeline (redo st) = timeline st)
  /\ (forall next,
        timeline (commit next st)
        = lastn 50 (history st ++ [shapes st]) ++ [resolve next (shapes st)]).
Proof.
  unfold timeline. split; [|split].
  - intros Hf. destruct (history st) as [|p h _] eqn:Hst using rev_ind.
    + destruct (undo_empty st Hst) as (-> & -> & ->). done.
    + destruct (undo_snoc st h p Hst) as (-> & -> & ->).
      rewrite take_ge by (simpl; lia). now rewrite <- app_assoc.
  - intros Hh. destruct (future st) as [|c f] eqn:Hst.
    + destruct (redo_empty st Hst) as (-> & -> & ->). done.
    + destruct (redo_cons st c f Hst) as (-> & -> & ->).
      rewrite lastn_all by (rewrite length_app; simpl; lia).
      now rewrite <- app_assoc.
  - intros next. now rewrite commit_shapes, commit_history, commit_future.
Qed.

(** The timeline of [demo] after one move, and after undoing it. *)
Lemma timeline_conserved_witness :
  timeline (undo (commits (drags 1) demo)) = timeline (commits (drags 1) demo).
Proof.
  apply (proj1 (timeline_conserved (commits (drags 1) demo))).
  vm_compute. lia.
Defined.

(** ** Lookups and the layer operations in closed form *)

Section Resolve.
Context {A : Type} (p : A -> bool).
Implicit Types (l : list A) (a : A).

Lemma find_split l a :
  Js.find p l = Some a ->
  exists l1 l2, l = l1 ++ a :: l2 /\ Forall (fun b => p b = false) l1 /\ p a = true.
Proof.
  induction l as [|b l IH]; simpl; [done|].
  destruct (p b) eqn:Hb.
  - intros [= ->]. exists [], l. done.
  - intros H. destruct (IH H) as (l1 & l2 & -> & Hl1 & Ha).
    exists (b :: l1), l2. split; [done|]. split; [|done]. now constructor.
Qed.

Lemma find_None l : Js.find p l = None -> Forall (fun b => p b = false) l.
Proof.
  induction l as [|b l IH]; simpl; [constructor|].
  destruct (p b) eqn:Hb; [done|]. intros H. constructor; auto.
Qed.

Lemma findIndex_None l :
  Forall (fun b => p b = false) l -> Js.findIndex p l = (-1)%Z.
Proof.
  induction 1 as [|b l Hb _ IH]; simpl; [done|]. now rewrite Hb, IH.
Qed.

Lemma findIndex_split l1 a l2 :
  Forall (fun b => p b = false) l1 -> p a = true ->
  Js.findIndex p (l1 ++ a :: l2) = Z.of_nat (length l1).
Proof.
  intros Hl1 Ha. induction Hl1 as [|b l1 Hb _ IH]; simpl.
  - now rewrite Ha.
  - rewrite Hb, IH. destruct (Z.ltb_spec (Z.of_nat (length l1)) 0); lia.
Qed.

End Resolve.

Section ClosedForms.
Implicit Types (prev : Snapshot) (s b : Shape.t) (i : string).

Lemma swap_adjacent (l1 : Snapshot) s b (l2 : Snapshot) :
  swap (l1 ++ s :: b :: l2) (length l1) (S (length l1)) = l1 ++ b :: s :: l2
  /\ swap (l1 ++ s :: b :: l2) (S (length l1)) (length l1) = l1 ++ b :: s :: l2.
Proof.
  unfold swap.
  assert (H0 : (l1 ++ s :: b :: l2) !! length l1 = Some s)
    by apply list_lookup_middle, eq_refl.
  assert (H1 : (l1 ++ s :: b :: l2) !! S (length l1) = Some b).
  { rewrite lookup_app_r by lia.
    now replace (S (length l1) - length l1)%nat with 1%nat by lia. }
  rewrite H0, H1. split.
  - rewrite (insert_app_r_alt l1 _ (length l1)) by lia.
    rewrite Nat.sub_diag. simpl.
    rewrite (insert_app_r_alt l1 _ (S (length l1))) by lia.
    now replace (S (length l1) - length l1)%nat with 1%nat by lia.
  - rewrite (insert_app_r_alt l1 _ (S (length l1))) by lia.
    replace (S (length l1) - length l1)%nat with 1%nat by lia. simpl.
    rewrite (insert_app_r_alt l1 _ (length l1)) by lia.
    now rewrite Nat.sub_diag.
Qed.

Lemma bringForward_updater_swap i (l1 : Snapshot) s b (l2 : Snapshot) :
  absent i l1 -> Shape.id s = i ->
  bringForward_updater i (l1 ++ s :: b :: l2) = l1 ++ b :: s :: l2.
Proof.
  intros Hl1 Hs. unfold bringForward_updater.
  rewrite (findIndex_split _ l1 s) by (try apply shape_id_is_true; done).
  rewrite length_app. simpl length.
  destruct (Z.ltb_spec (Z.of_nat (length l1)) 0); [lia|].
  destruct (Z.eqb_spec (Z.of_nat (length l1))
              (Z.of_nat (length l1 + S (S (length l2))) - 1)); [lia|].
  simpl. rewrite Nat2Z.id.
  replace (Z.to_nat (Z.of_nat (length l1) + 1)) with (S (length l1)) by lia.
  apply swap_adjacent.
Qed.

Lemma sendBackward_updater_swap i (l1 : Snapshot) s b (l2 : Snapshot) :
  absent i l1 -> shape_id_is i b = false -> Shape.id s = i ->
  sendBackward_updater i (l1 ++ b :: s :: l2) = l1 ++ s :: b :: l2.
Proof.
  intros Hl1 Hb Hs. unfold sendBackward_updater.
  replace (l1 ++ b :: s :: l2) with ((l1 ++ [b]) ++ s :: l2)
    by now rewrite <- app_assoc.
  rewrite (findIndex_split _ (l1 ++ [b]) s).
  - rewrite <- app_assoc. simpl. rewrite length_app. simpl length.
    destruct (Z.leb_spec (Z.of_nat (length l1 + 1)) 0); [lia|].
    replace (Z.to_nat (Z.of_nat (length l1 + 1))) with (S (length l1)) by lia.
    replace (Z.to_nat (Z.of_nat (length l1 + 1) - 1)) with (length l1) by lia.
    apply swap_adjacent.
  - apply Forall_app. split; [exact Hl1|]. now constructor.
  - now apply shape_id_is_true.
Qed.

Lemma bringToFront_updater_move i (l1 : Snapshot) s (l2 : Snapshot) :
  absent i l1 -> Shape.id s = i ->
  bringToFront_updater i (l1 ++ s :: l2) = l1 ++ l2 ++ [s].
Proof.
  intros Hl1 Hs. unfold bringToFront_updater.
  rewrite (findIndex_split _ l1 s) by (try apply shape_id_is_true; done).
  rewrite length_app. simpl length.
  destruct (Z.ltb_spec (Z.of_nat (length l1)) 0); [lia|]. simpl.
  destruct (Z.eqb_spec (Z.of_nat (length l1))
              (Z.of_nat (length l1 + S (length l2)) - 1)) as [He|He].
  - destruct l2; [done|simpl in He; lia].
  - unfold splice1. rewrite Nat2Z.id.
    rewrite list_lookup_middle by done.
    rewrite delete_middle. now rewrite <- app_assoc.
Qed.

Lemma sendToBack_updater_move i (l1 : Snapshot) s (l2 : Snapshot) :
  absent i l1 -> Shape.id s = i ->
  sendToBack_updater i (l1 ++ s :: l2) = s :: l1 ++ l2.
Proof.
  intros Hl1 Hs. unfold sendToBack_updater.
  rewrite (findIndex_split _ l1 s) by (try apply shape_id_is_true; done).
  destruct (Z.leb_spec (Z.of_nat (length l1)) 0) as [He|He].
  - destruct l1; [done|simpl in He; lia].
  - unfold splice1. rewrite Nat2Z.id.
    rewrite list_lookup_middle by done.
    now rewrite delete_middle.
Qed.

Lemma layer_updaters_absent i prev :
  absent i prev ->
  bringForward_updater i prev = prev /\ sendBackward_updater i prev = prev
  /\ bringToFront_updater i prev = prev /\ sendToBack_updater i prev = prev.
Proof.
  intros H. apply findIndex_None in H.
  unfold bringForward_updater, sendBackward_updater, bringToFront_updater,
    sendToBack_updater. rewrite H. done.
Qed.

End ClosedForms.

(** ** The layer operations *)

Lemma find_decompose (i : string) (prev : Snapshot) :
  absent i prev
  \/ exists l1 s l2, prev = l1 ++ s :: l2 /\ absent i l1 /\ Shape.id s = i
                     /\ Js.find (shape_id_is i) prev = Some s.
Proof.
  destruct (Js.find (shape_id_is i) prev) as [s|] eqn:Hf.
  - right. destruct (find_split _ _ _ Hf) as (l1 & l2 & -> & Hl1 & Hs).
    exists l1, s, l2. repeat split; try done. now apply shape_id_is_true.
  - left. now apply find_None.
Qed.

Lemma layer_updaters_perm (i : string) (prev : Snapshot) :
  bringForward_updater i prev ≡ₚ prev /\ sendBackward_updater i prev ≡ₚ prev
  /\ bringToFront_updater i prev ≡ₚ prev /\ sendToBack_updater i prev ≡ₚ prev.
Proof.
  destruct (find_decompose i prev) as [Habs|(l1 & s & l2 & -> & Hl1 & Hs & _)].
  { destruct (layer_updaters_absent i prev Habs) as (-> & -> & -> & ->). done. }
  repeat split.
  - destruct l2 as [|b l2].
    + unfold bringForward_updater.
      rewrite (findIndex_split _ l1 s) by (try apply shape_id_is_true; done).
      rewrite length_app. simpl length.
      replace (Z.of_nat (length l1) =? Z.of_nat (length l1 + 1) - 1)%Z
        with true by (symmetry; apply Z.eqb_eq; lia).
      now rewrite orb_true_r.
    + rewrite bringForward_updater_swap by done.
      apply Permutation_app_head, perm_swap.
  - destruct l1 as [|b l1 _] using rev_ind.
    + subst i. simpl. now rewrite (sendBackward_updater_bottom (s :: l2) s eq_refl).
    + apply Forall_app in Hl1 as [Hl1 Hb]. rewrite Forall_singleton in Hb.
      rewrite <- !app_assoc. simpl.
      rewrite sendBackward_updater_swap by done.
      apply Permutation_app_head, perm_swap.
  - rewrite bringToFront_updater_move by done.
    apply Permutation_app_head. symmetry. apply Permutation_cons_append.
  - rewrite sendToBack_updater_move by done.
    apply Permutation_middle.
Qed.

(** X4: each of the four layer operations permutes the snapshot: no shape is
    added, lost or changed, whatever the identifier. *)
Theorem layer_ops_permute (op : LayerOp) (s : Shape.t) (st : Editor) :
  shapes (layerOp op s st) ≡ₚ shapes st
  /\ length (shapes (layerOp op s st)) = length (shapes st).
Proof.
  assert (H : shapes (layerOp op s st) ≡ₚ shapes st).
  { destruct (layer_updaters_perm (Shape.id s) (shapes st)) as (H1 & H2 & H3 & H4).
    destruct op; simpl; assumption. }
  split; [exact H|]. now rewrite H.
Qed.

(** X5: [bringToFront] moves the shape that the identifier resolves to to the
    end of the sequence and [sendToBack] moves it to the start; the other
    shapes keep their relative order. *)
Theorem front_and_back_move (i : string) (s : Shape.t) (st : Editor) :
  Js.find (shape_id_is i) (shapes st) = Some s ->
  exists l1 l2,
    shapes st = l1 ++ s :: l2
    /\ shapes (bringToFront i st) = l1 ++ l2 ++ [s]
    /\ shapes (sendToBack i st) = s :: l1 ++ l2.
Proof.
  intros Hf. destruct (find_split _ _ _ Hf) as (l1 & l2 & Hp & Hl1 & Hs).
  apply shape_id_is_true in Hs. exists l1, l2. split; [exact Hp|].
  unfold bringToFront, sendToBack. rewrite !commit_shapes. simpl. rewrite Hp.
  split; [now apply bringToFront_updater_move|now apply sendToBack_updater_move].
Qed.

(** Raising the rectangle of [stacked] to the front. *)
Lemma front_and_back_move_witness :
  exists l1 l2,
    shapes stacked = l1 ++ newRect "k3x9q2a" :: l2
    /\ shapes (bringToFront "rect_k3x9q2a" stacked) = l1 ++ l2 ++ [newRect "k3x9q2a"]
    /\ shapes (sendToBack "rect_k3x9q2a" stacked) = newRect "k3x9q2a" :: l1 ++ l2.
Proof.
  apply (front_and_back_move "rect_k3x9q2a" (newRect "k3x9q2a") stacked).
  reflexivity.
Defined.

(** X6: [bringForward] swaps the shape that the identifier resolves to with
    the shape above it, and when that shape has another identifier a
    [sendBackward] of the same identifier restores the sequence. *)
Theorem bringForward_then_sendBackward
  (i : string) (l1 : Snapshot) (s b : Shape.t) (l2 : Snapshot) (st : Editor) :
  shapes st = l1 ++ s :: b :: l2 ->
  absent i l1 -> Shape.id s = i -> Shape.id b <> i ->
  shapes (bringForward i st) = l1 ++ b :: s :: l2
  /\ shapes (sendBackward i (bringForward i st)) = shapes st.
Proof.
  intros Hp Hl1 Hs Hb.
  assert (H1 : shapes (bringForward i st) = l1 ++ b :: s :: l2).
  { unfold bringForward. rewrite commit_shapes. simpl. rewrite Hp.
    now apply bringForward_updater_swap. }
  split; [exact H1|].
  unfold sendBackward at 1. rewrite commit_shapes. cbn [resolve]. rewrite H1, Hp.
  apply sendBackward_updater_swap; try done. now apply shape_id_is_false.
Qed.

(** The rectangle of [stacked], raised one step and lowered again. *)
Lemma bringForward_then_sendBackward_witness :
  shapes (sendBackward "rect_k3x9q2a" (bringForward "rect_k3x9q2a" stacked))
  = shapes stacked.
Proof.
  apply (bringForward_then_sendBackward "rect_k3x9q2a" []
           (newRect "k3x9q2a") (newCircle "p0d41xw") [newText "7hq02mz"] stacked).
  - reflexivity.
  - constructor.
  - reflexivity.
  - discriminate.
Defined.

(** X7: [sendBackward] swaps the shape that the identifier resolves to with
    the shape below it, and a [bringForward] of the same identifier restores
    the sequence. *)
Theorem sendBackward_then_bringForward
  (i : string) (l1 : Snapshot) (s b : Shape.t) (l2 : Snapshot) (st : Editor) :
  shapes st = l1 ++ b :: s :: l2 ->
  absent i (l1 ++ [b]) -> Shape.id s = i ->
  shapes (sendBackward i st) = l1 ++ s :: b :: l2
  /\ shapes (bringForward i (sendBackward i st)) = shapes st.
Proof.
  intros Hp Hl1 Hs. apply Forall_app in Hl1 as [Hl1 Hb].
  rewrite Forall_singleton in Hb.
  assert (H1 : shapes (sendBackward i st) = l1 ++ s :: b :: l2).
  { unfold sendBackward. rewrite commit_shapes. simpl. rewrite Hp.
    now apply sendBackward_updater_swap. }
  split; [exact H1|].
  unfold bringForward at 1. rewrite commit_shapes. cbn [resolve]. rewrite H1, Hp.
  now apply bringForward_updater_swap.
Qed.

(** The text block of [stacked], lowered one step and raised again. *)
Lemma sendBackward_then_bringForward_witness :
  shapes (bringForward "text_7hq02mz" (sendBackward "text_7hq02mz" stacked))
  = shapes stacked.
Proof.
  apply (sendBackward_then_bringForward "text_7hq02mz" [newRect "k3x9q2a"]
           (newText "7hq02mz") (newCircle "p0d41xw") [] stacked).
  - reflexivity.
  - repeat constructor.
  - reflexivity.
Defined.

(** ** Updating, deleting and identifiers *)

Lemma spread_idempotent (s : Shape.t) (p : Partial.t) :
  spread (spread s p) p = spread s p.
Proof.
  destruct s as [i sx sy r n lk hd b], p as [ox oy orot on ol oh ow ohh ora ofi ost osw ocr ot ofs].
  unfold spread. simpl. f_equal;
    try (destruct ox; reflexivity); try (destruct oy; reflexivity);
    try (destruct orot; reflexivity); try (destruct on; reflexivity);
    try (destruct ol; reflexivity); try (destruct oh; reflexivity).
  destruct b; simpl; f_equal;
    repeat match goal with
           | |- context [over ?o _] => is_var o; destruct o
           | |- context [over_opt ?o _] => is_var o; destruct o
           end; reflexivity.
Qed.

Lemma ids_updateShape (i : string) (p : Partial.t) (prev : Snapshot) :
  map Shape.id (updateShape_updater i p prev) = map Shape.id prev.
Proof.
  unfold updateShape_updater. rewrite map_map. apply map_ext.
  intros s. now destruct (shape_id_is i s).
Qed.

(** X8: [updateShape] keeps the number, the order, the identifiers and the
    kinds of the shapes; at every index the shape is the old one, merged with
    the partial when it carries the identifier and untouched otherwise; and
    the same update a second time changes nothing more. *)
Theorem updateShape_frame (i : string) (partial : Partial.t) (st : Editor) :
  let st' := updateShape i partial st in
  length (shapes st') = length (shapes st)
  /\ map Shape.id (shapes st') = map Shape.id (shapes st)
  /\ map (fun s => kind_prefix (Shape.body s)) (shapes st')
     = map (fun s => kind_prefix (Shape.body s)) (shapes st)
  /\ (forall n s, shapes st !! n = Some s ->
                  shapes st' !! n
                  = Some (if shape_id_is i s then spread s partial else s))
  /\ shapes (updateShape i partial st') = shapes st'.
Proof.
  cbv zeta. unfold updateShape. rewrite !commit_shapes. cbn [resolve].
  split; [unfold updateShape_updater; apply length_map|].
  split; [apply ids_updateShape|]. split; [|split].
  - unfold updateShape_updater. rewrite map_map. apply map_ext.
    intros s. destruct (shape_id_is i s); [|done].
    simpl. now destruct (Shape.body s).
  - intros n s Hn. now apply lookup_updateShape.
  - unfold updateShape_updater. rewrite map_map. apply map_ext.
    intros s. destruct (shape_id_is i s) eqn:Hs.
    + change (shape_id_is i (spread s partial)) with (shape_id_is i s).
      rewrite Hs. apply spread_idempotent.
    + now rewrite Hs.
Qed.

(** Moving the rectangle of [stacked] leaves the circle at index 1 as it is. *)
Lemma updateShape_frame_witness :
  shapes (updateShape "rect_k3x9q2a" (position 0 0) stacked) !! 1%nat
  = Some (newCircle "p0d41xw").
Proof.
  destruct (updateShape_frame "rect_k3x9q2a" (position 0 0) stacked)
    as (_ & _ & _ & H & _).
  apply (H 1%nat (newCircle "p0d41xw")). reflexivity.
Defined.

(** X9: with a selection, [deleteSelected] removes exactly the shapes that
    carry the selected identifier, keeps the others in their order, clears
    the selection, and an undo brings the snapshot back; without a selection
    it does nothing, and takes no slot of the past stack. *)
Theorem deleteSelected_spec (st : Editor) :
  (forall sel,
      truthy_id (selectedId st) = Some sel ->
      let st' := deleteSelected st in
      absent sel (shapes st')
      /\ (forall s, s ∈ shapes st' <-> s ∈ shapes st /\ Shape.id s <> sel)
      /\ sublist (shapes st') (shapes st)
      /\ selectedId st' = None
      /\ shapes (undo st') = shapes st)
  /\ (truthy_id (selectedId st) = None -> deleteSelected st = st).
Proof.
  split.
  - intros sel Hsel. cbv zeta. unfold deleteSelected. rewrite Hsel.
    set (f := fun prev : Snapshot => filter (fun s => negb (shape_id_is sel s)) prev).
    assert (Hin : forall s, s ∈ f (shapes st) <-> s ∈ shapes st /\ Shape.id s <> sel).
    { intros s. unfold f. rewrite list_elem_of_filter.
      rewrite <- (shape_id_is_false sel s).
      destruct (shape_id_is sel s); simpl; intuition congruence. }
    split; [|split; [exact Hin|split; [apply sublist_filter|split; [reflexivity|]]]].
    + apply Forall_forall. intros s Hs. apply Hin in Hs as [_ Hs].
      now apply shape_id_is_false.
    + pose proof (commit_history (Updater f) st) as Hh.
      rewrite <- lastn_snoc in Hh.
      destruct (undo_snoc (setSelectedId None (commit (Updater f) st)) _ _ Hh)
        as (Hu & _ & _).
      exact Hu.
  - intros Hsel. unfold deleteSelected. now rewrite Hsel.
Qed.

(** Deleting the selected text block of [stacked]. *)
Lemma deleteSelected_spec_witness :
  absent "text_7hq02mz" (shapes (deleteSelected stacked))
  /\ shapes (undo (deleteSelected stacked)) = shapes stacked.
Proof.
  destruct (proj1 (deleteSelected_spec stacked) "text_7hq02mz" eq_refl)
    as (Ha & _ & _ & _ & Hu).
  split; [exact Ha|exact Hu].
Defined.

(** X10: distinct identifiers stay distinct under [updateShape], under the
    deletion of an identifier and under the four layer operations; adding a
    shape keeps them distinct exactly when its identifier is not yet in the
    snapshot. *)
Theorem unique_ids_kept (prev : Snapshot) :
  unique_ids prev ->
  (forall i partial, unique_ids (updateShape_updater i partial prev))
  /\ (forall sel, unique_ids (filter (fun s => negb (shape_id_is sel s)) prev))
  /\ (forall i, unique_ids (bringForward_updater i prev)
                /\ unique_ids (sendBackward_updater i prev)
                /\ unique_ids (bringToFront_updater i prev)
                /\ unique_ids (sendToBack_updater i prev))
  /\ (forall s, unique_ids (addShape_updater s prev)
                <-> Shape.id s ∉ map Shape.id prev).
Proof.
  unfold unique_ids. intros Hnd. split; [|split; [|split]].
  - intros i partial. now rewrite ids_updateShape.
  - intros sel. apply (sublist_NoDup _ (map Shape.id prev) Hnd).
    apply (fmap_sublist Shape.id), sublist_filter.
  - intros i.
    destruct (layer_updaters_perm i prev) as (H1 & H2 & H3 & H4).
    change (@map Shape.t string) with (@fmap list _ Shape.t string).
    now rewrite H1, H2, H3, H4.
  - intros s. unfold addShape_updater. rewrite map_app. simpl.
    rewrite NoDup_app. split.
    + intros (_ & Hx & _) Hin. apply (Hx _ Hin). now left.
    + intros Hnot. split; [exact Hnd|]. split; [|apply NoDup_singleton].
      intros x Hx Hx'. apply list_elem_of_singleton in Hx'. now subst.
Qed.

(** The identifiers of [stacked] stay distinct when its rectangle is moved. *)
Lemma unique_ids_kept_witness :
  unique_ids (updateShape_updater "rect_k3x9q2a" (position 0 0) (shapes stacked)).
Proof.
  apply (unique_ids_kept (shapes stacked)).
  unfold unique_ids. refine (bool_decide_unpack _ _). vm_compute. exact I.
Defined.

Lemma uid_prefix_inj (b b' : Body) (r r' : string) :
  uid (kind_prefix b) r = uid (kind_prefix b') r' ->
  kind_prefix b = kind_prefix b' /\ r = r'.
Proof.
  destruct b, b'; intros H; cbv in H;
    try discriminate H; injection H as ->; done.
Qed.

(** X11: the identifiers that the add callbacks draw tell the kinds apart: two
    new shapes have the same identifier only when they are of the same kind
    and [uid] drew the same digits for both. *)
Theorem new_ids_tell_kinds (r r' url : string) (w h : Q) :
  (Shape.id (newRect r) = Shape.id (newRect r') <-> r = r')
  /\ (Shape.id (newCircle r) = Shape.id (newCircle r') <-> r = r')
  /\ (Shape.id (newText r) = Shape.id (newText r') <-> r = r')
  /\ (Shape.id (newImage r url w h) = Shape.id (newImage r' url w h) <-> r = r')
  /\ Shape.id (newRect r) <> Shape.id (newCircle r')
  /\ Shape.id (newRect r) <> Shape.id (newText r')
  /\ Shape.id (newRect r) <> Shape.id (newImage r' url w h)
  /\ Shape.id (newCircle r) <> Shape.id (newText r')
  /\ Shape.id (newCircle r) <> Shape.id (newImage r' url w h)
  /\ Shape.id (newText r) <> Shape.id (newImage r' url w h).
Proof.
  repeat split; try (intros ->; reflexivity);
    intros H; cbv in H; try discriminate H; injection H as ->; reflexivity.
Qed.

(** ** Clamping and snapping *)

Section Numbers.
Open Scope Q_scope.

Lemma clamp_cases v lo hi :
  (hi < lo /\ clamp v lo hi == lo)
  \/ (lo <= hi /\ v <= lo /\ clamp v lo hi == lo)
  \/ (lo <= v /\ v <= hi /\ clamp v lo hi == v)
  \/ (lo <= hi /\ hi <= v /\ clamp v lo hi == hi).
Proof.
  unfold clamp.
  destruct (Q.min_spec hi v) as [[H1 E1]|[H1 E1]];
    destruct (Q.max_spec lo (Qmin hi v)) as [[H2 E2]|[H2 E2]];
    set (m := Qmin hi v) in *; set (M := Qmax lo m) in *;
    destruct (Qlt_le_dec hi lo);
    first [ left; split; lra
          | right; left; repeat split; lra
          | right; right; left; repeat split; lra
          | right; right; right; repeat split; lra ].
Qed.

Lemma clamp_inside v v' lo hi :
  v == v' -> lo <= v' -> v' <= hi -> clamp v lo hi == v'.
Proof.
  intros E Hlo Hhi.
  destruct (clamp_cases v lo hi) as [[H _]|[(_ & H & ->)|[(_ & _ & ->)|(_ & H & ->)]]];
    lra.
Qed.

Lemma Math_round_near (v : Q) :
  exists k : Z, Js.Math_round v = inject_Z k
                /\ v - (1 # 2) < inject_Z k /\ inject_Z k <= v + (1 # 2).
Proof.
  exists (Qfloor (v + (1 # 2))). split; [reflexivity|].
  pose proof (Qfloor_le (v + (1 # 2))) as H1.
  pose proof (Qlt_floor (v + (1 # 2))) as H2.
  rewrite inject_Z_plus in H2. change (inject_Z 1) with 1 in H2. lra.
Qed.

End Numbers.

(** X12: [clamp] returns its lower bound when the bounds are crossed or the
    value is below them, the value itself when it lies between the bounds, and
    the upper bound above them; so with ordered bounds the result is always
    within the bounds, and clamping twice is clamping once. *)
Theorem clamp_spec (v lo hi : Q) :
  ((hi < lo)%Q -> (clamp v lo hi == lo)%Q)
  /\ ((lo <= hi)%Q -> (lo <= clamp v lo hi /\ clamp v lo hi <= hi)%Q)
  /\ ((lo <= v)%Q -> (v <= hi)%Q -> (clamp v lo hi == v)%Q)
  /\ ((lo <= hi)%Q -> (v <= lo)%Q -> (clamp v lo hi == lo)%Q)
  /\ ((lo <= hi)%Q -> (hi <= v)%Q -> (clamp v lo hi == hi)%Q)
  /\ (clamp (clamp v lo hi) lo hi == clamp v lo hi)%Q.
Proof.
  destruct (clamp_cases v lo hi) as [[H E]|[(H1 & H2 & E)|[(H1 & H2 & E)|(H1 & H2 & E)]]].
  all: repeat split; intros; rewrite ?E; try lra.
  all: destruct (clamp_cases (clamp v lo hi) lo hi)
      as [[H' E']|[(H1' & H2' & E')|[(H1' & H2' & E')|(H1' & H2' & E')]]];
    rewrite E' in *; rewrite ?E in *; lra.
Qed.

(** Clamping the corner radius 250 to the inspector's range. *)
Lemma clamp_spec_witness : (clamp 250 0 200 == 200)%Q.
Proof.
  destruct (clamp_spec 250 0 200) as (_ & _ & _ & _ & H & _).
  apply H; vm_compute; discriminate.
Defined.

(** X13: with a nonzero grid size, snapping a snapped value changes nothing. *)
Theorem snap_idempotent (st : Editor) (v : Q) :
  ~ (gridSize st == 0)%Q -> (snap st (snap st v) == snap st v)%Q.
Proof.
  intros Hg. unfold snap. destruct (gridEnabled st); [|reflexivity].
  destruct (Math_round_near (v / gridSize st)) as (k & -> & _).
  rewrite (Math_round_integer (inject_Z k * gridSize st / gridSize st) k).
  - reflexivity.
  - field. exact Hg.
Qed.

(** On the default grid of [demo]: 150 snaps to 160, and 160 stays. *)
Lemma snap_idempotent_witness : (snap demo (snap demo 150) == snap demo 150)%Q.
Proof. apply (snap_idempotent demo 150). vm_compute. discriminate. Defined.

Lemma snap_near (st : Editor) (v : Q) :
  gridEnabled st = true ->
  (0 < gridSize st)%Q ->
  exists k : Z,
    (snap st v == inject_Z k * gridSize st)%Q
    /\ (v - gridSize st / 2 < snap st v)%Q
    /\ (snap st v <= v + gridSize st / 2)%Q.
Proof.
  intros Hon Hg. unfold snap. rewrite Hon.
  destruct (Math_round_near (v / gridSize st)) as (k & -> & Hlo & Hhi).
  exists k. split; [reflexivity|].
  set (g := gridSize st) in *.
  assert (Hv : (v == v / g * g)%Q) by (field; lra).
  set (q := (v / g)%Q) in *.
  assert (H1 : ((q - (1 # 2)) * g < inject_Z k * g)%Q)
    by (apply Qmult_lt_compat_r; assumption).
  assert (H2 : (inject_Z k * g <= (q + (1 # 2)) * g)%Q)
    by (apply Qmult_le_compat_r; [assumption|lra]).
  assert (E1 : ((q - (1 # 2)) * g == v - g / 2)%Q) by (rewrite Hv; field).
  assert (E2 : ((q + (1 # 2)) * g == v + g / 2)%Q) by (rewrite Hv; field).
  split; [rewrite <- E1; exact H1|rewrite <- E2; exact H2].
Qed.

(** X14: with snapping on and a positive grid size, a snapped value is an
    integer multiple of the grid size, and lies within half a cell of the
    value it comes from (a value midway between two lines goes up). *)
Theorem snap_nearest_line (st : Editor) (v : Q) :
  gridEnabled st = true ->
  (0 < gridSize st)%Q ->
  exists k : Z,
    (snap st v == inject_Z k * gridSize st)%Q
    /\ (v - gridSize st / 2 < snap st v)%Q
    /\ (snap st v <= v + gridSize st / 2)%Q.
Proof. exact (snap_near st v). Qed.

(** 150 on the default grid: the line at 160 = 5 * 32. *)
Lemma snap_nearest_line_witness :
  exists k : Z, (snap demo 150 == inject_Z k * gridSize demo)%Q.
Proof.
  destruct (snap_nearest_line demo 150) as (k & H & _).
  - reflexivity.
  - reflexivity.
  - exists k. exact H.
Defined.

(** ** Alignment *)

Lemma getSize_position (s : Shape.t) (nx ny : Q) :
  getSize (spread s (position nx ny)) = getSize s.
Proof. unfold getSize. simpl. now destruct (Shape.body s). Qed.

Lemma inspected_updateShape (st : Editor) (s : Shape.t) (p : Partial.t) :
  inspected st = Some s ->
  inspected (updateShape (Shape.id s) p st) = Some (spread s p).
Proof.
  unfold inspected. simpl. destruct (truthy_id (selectedId st)) as [sel|]; [|done].
  intros Hf. destruct (find_Some _ _ _ Hf) as [Hid _]. rewrite Hid.
  unfold Js.structuredClone. now apply find_updateShape.
Qed.

(** X15: [alignSelected] keeps the size of the selected shape's box; with
    snapping off it puts the box's edge (or centre line) exactly on the
    slide's edge (or centre line) that the direction names, and with snapping
    on, within half a grid cell of it. *)
Theorem align_reaches_edge (st : Editor) (dir : Dir.t) (s : Shape.t) :
  inspected st = Some s ->
  exists s',
    inspected (alignSelected dir st) = Some s'
    /\ getSize s' = getSize s
    /\ (gridEnabled st = false -> (edge_gap dir s' == 0)%Q)
    /\ (gridEnabled st = true -> (0 < gridSize st)%Q ->
        (- (gridSize st / 2) < edge_gap dir s'
         /\ edge_gap dir s' <= gridSize st / 2)%Q).
Proof.
  intros Hi. pose proof Hi as Hi'. unfold inspected in Hi'.
  destruct (truthy_id (selectedId st)) as [sel|] eqn:Hsel; [|done].
  unfold alignSelected. rewrite Hsel, Hi'.
  destruct (alignTarget dir s) as [nx ny] eqn:Ht.
  exists (spread s (position (snap st nx) (snap st ny))).
  split; [now apply inspected_updateShape|].
  split; [apply getSize_position|].
  unfold edge_gap. rewrite getSize_position.
  unfold alignTarget in Ht. destruct (getSize s) as [w h].
  unfold SLIDE_W, SLIDE_H in *. split.
  - intros Hoff. rewrite !(snap_disabled st _ Hoff) in *.
    destruct dir; simpl; injection Ht as <- <-; field.
  - intros Hon Hg.
    destruct (snap_near st nx Hon Hg) as (_ & _ & Hx1 & Hx2).
    destruct (snap_near st ny Hon Hg) as (_ & _ & Hy1 & Hy2).
    unfold Qdiv in *. change (/ 2)%Q with (1 # 2)%Q in *.
    destruct dir; simpl; injection Ht as Hx Hy; subst nx ny;
      simpl in *; split; lra.
Qed.

(** Aligning the rectangle of [demo] to the right, on the default grid. *)
Lemma align_reaches_edge_witness :
  exists s', inspected (alignSelected Dir.right demo) = Some s'
             /\ getSize s' = getSize (newRect "k3x9q2a").
Proof.
  destruct (align_reaches_edge demo Dir.right (newRect "k3x9q2a") eq_refl)
    as (s' & H1 & H2 & _).
  exists s'. split; [exact H1|exact H2].
Defined.

(** ** Arrow keys *)

Section ArrowKeys.
Open Scope Q_scope.

Lemma isArrow_cases (k : string) :
  isArrow k = true ->
  k = "ArrowLeft"%string \/ k = "ArrowRight"%string
  \/ k = "ArrowUp"%string \/ k = "ArrowDown"%string.
Proof.
  unfold isArrow. rewrite !orb_true_iff, !String.eqb_eq. tauto.
Qed.

(** An arrow key on an unlocked selected shape runs the nudge, whatever the
    modifiers are. *)
Lemma onKey_arrow (e : KeyboardEvent.t) (ui : Ui) (s : Shape.t) :
  isArrow (KeyboardEvent.key e) = true ->
  inspected (editor ui) = Some s ->
  truthy_flag (Shape.locked s) = false ->
  editor (onKey e ui)
  = nudge (KeyboardEvent.key e) (arrowStep e) s (editor ui).
Proof.
  intros Ha Hi Hl. unfold inspected in Hi.
  destruct (truthy_id (selectedId (editor ui))) as [sel|] eqn:Hsel; [|done].
  unfold onKey. rewrite Hsel, Ha, Hi, Hl.
  assert (Hk : lower_is "z" "Z" (KeyboardEvent.key e) = false
               /\ lower_is "y" "Y" (KeyboardEvent.key e) = false
               /\ (String.eqb (KeyboardEvent.key e) "Delete"
                   || String.eqb (KeyboardEvent.key e) "Backspace")%bool = false)
    by (destruct (isArrow_cases _ Ha) as [-> | [-> | [-> | ->]]]; done).
  destruct Hk as (-> & -> & ->). rewrite !andb_false_r.
  unfold spaceDown, arrowStep.
  now destruct (String.eqb (KeyboardEvent.code e) "Space").
Qed.

Lemma arrow_deltas (k : string) (delta : Q) :
  isArrow k = true ->
  (arrowDx k delta = - delta /\ arrowDy k delta = 0)
  \/ (arrowDx k delta = delta /\ arrowDy k delta = 0)
  \/ (arrowDx k delta = 0 /\ arrowDy k delta = - delta)
  \/ (arrowDx k delta = 0 /\ arrowDy k delta = delta).
Proof.
  intros Ha. destruct (isArrow_cases _ Ha) as [-> | [-> | [-> | ->]]]; cbv; tauto.
Qed.

(** A value on the grid, moved by less than half a cell, snaps back. *)
Lemma snap_absorbs (st : Editor) (v d : Q) (k : Z) :
  gridEnabled st = true -> 0 < gridSize st ->
  v == inject_Z k * gridSize st ->
  - (gridSize st / 2) <= d -> d < gridSize st / 2 ->
  snap st (v + d) == v.
Proof.
  intros Hon Hg Hv Hlo Hhi. unfold snap. rewrite Hon.
  set (g := gridSize st) in *.
  assert (E : (v + d) / g == inject_Z k + d / g) by (rewrite Hv; field; lra).
  assert (H1 : - (1 # 2) <= d / g).
  { apply Qle_shift_div_l; [exact Hg|].
    assert (E1 : - (1 # 2) * g == - (g / 2)) by field. rewrite E1. exact Hlo. }
  assert (H2 : d / g < 1 # 2).
  { apply Qlt_shift_div_r; [exact Hg|].
    assert (E2 : (1 # 2) * g == g / 2) by field. rewrite E2. exact Hhi. }
  unfold Js.Math_round.
  rewrite (Qfloor_unique ((v + d) / g + (1 # 2)) k).
  - now rewrite Hv.
  - rewrite E. lra.
  - rewrite E, inject_Z_plus. change (inject_Z 1) with 1. lra.
Qed.

End ArrowKeys.

(** X16: with snapping off, an arrow key on the unlocked selected shape
    moves it by one pixel, or ten with shift: [ArrowLeft] subtracts the step
    from x and [ArrowRight] adds it, leaving y; [ArrowUp] subtracts the step
    from y and [ArrowDown] adds it, leaving x; the body and the rotation stay
    as they are and the key press takes one slot of the past stack. *)
Theorem arrow_key_nudges (e : KeyboardEvent.t) (ui : Ui) (s : Shape.t) :
  isArrow (KeyboardEvent.key e) = true ->
  inspected (editor ui) = Some s ->
  truthy_flag (Shape.locked s) = false ->
  gridEnabled (editor ui) = false ->
  let step := (if KeyboardEvent.shiftKey e then 10 else 1)%Q in
  exists s',
    inspected (editor (onKey e ui)) = Some s'
    /\ (KeyboardEvent.key e = "ArrowLeft"%string ->
        Shape.x s' = (Shape.x s + - step)%Q /\ Shape.y s' = (Shape.y s + 0)%Q)
    /\ (KeyboardEvent.key e = "ArrowRight"%string ->
        Shape.x s' = (Shape.x s + step)%Q /\ Shape.y s' = (Shape.y s + 0)%Q)
    /\ (KeyboardEvent.key e = "ArrowUp"%string ->
        Shape.x s' = (Shape.x s + 0)%Q /\ Shape.y s' = (Shape.y s + - step)%Q)
    /\ (KeyboardEvent.key e = "ArrowDown"%string ->
        Shape.x s' = (Shape.x s + 0)%Q /\ Shape.y s' = (Shape.y s + step)%Q)
    /\ Shape.body s' = Shape.body s /\ Shape.rotation s' = Shape.rotation s
    /\ history (editor (onKey e ui))
       = lastn 50 (history (editor ui) ++ [shapes (editor ui)]).
Proof.
  intros Ha Hi Hl Hoff. cbv zeta. rewrite (onKey_arrow e ui s Ha Hi Hl).
  unfold nudge, arrowStep. rewrite !(snap_disabled _ _ Hoff).
  eexists. split; [now apply inspected_updateShape|].
  split; [intros ->; split; reflexivity|].
  split; [intros ->; split; reflexivity|].
  split; [intros ->; split; reflexivity|].
  split; [intros ->; split; reflexivity|].
  split; [simpl; now destruct (Shape.body s)|]. split; [reflexivity|].
  apply commit_history.
Qed.

(** X17: with snapping on, an arrow key on an unlocked selected shape that
    sits on the grid leaves it where it is whenever the step (1, or 10 with
    shift) is less than half the grid size, as on the default grid of 32; the
    key press still takes a slot of the past stack and empties the future
    stack. *)
Theorem arrow_key_swallowed_by_grid
  (e : KeyboardEvent.t) (ui : Ui) (s : Shape.t) (kx ky : Z) :
  isArrow (KeyboardEvent.key e) = true ->
  inspected (editor ui) = Some s ->
  truthy_flag (Shape.locked s) = false ->
  gridEnabled (editor ui) = true ->
  (2 * arrowStep e < gridSize (editor ui))%Q ->
  (Shape.x s == inject_Z kx * gridSize (editor ui))%Q ->
  (Shape.y s == inject_Z ky * gridSize (editor ui))%Q ->
  exists s',
    inspected (editor (onKey e ui)) = Some s'
    /\ (Shape.x s' == Shape.x s)%Q /\ (Shape.y s' == Shape.y s)%Q
    /\ history (editor (onKey e ui))
       = lastn 50 (history (editor ui) ++ [shapes (editor ui)])
    /\ future (editor (onKey e ui)) = [].
Proof.
  intros Ha Hi Hl Hon Hstep Hx Hy. rewrite (onKey_arrow e ui s Ha Hi Hl).
  assert (Hpos : (0 < arrowStep e)%Q)
    by (unfold arrowStep; destruct (KeyboardEvent.shiftKey e); reflexivity).
  assert (Hg : (0 < gridSize (editor ui))%Q) by lra.
  assert (Hhalf : (arrowStep e < gridSize (editor ui) / 2)%Q).
  { apply Qlt_shift_div_l; [reflexivity|]. lra. }
  unfold nudge. eexists. split; [now apply inspected_updateShape|].
  simpl Shape.x. simpl Shape.y.
  assert (Hz : (- (gridSize (editor ui) / 2) <= 0 < gridSize (editor ui) / 2)%Q)
    by (split; lra).
  split; [|split; [|split; [apply commit_history|reflexivity]]].
  - destruct (arrow_deltas _ (arrowStep e) Ha) as [[-> _]|[[-> _]|[[-> _]|[-> _]]]];
      apply (snap_absorbs _ _ _ kx); try assumption; lra.
  - destruct (arrow_deltas _ (arrowStep e) Ha) as [[_ ->]|[[_ ->]|[[_ ->]|[_ ->]]]];
      apply (snap_absorbs _ _ _ ky); try assumption; lra.
Qed.

(** X18: an arrow key changes nothing in the editor when there is no
    selection, when the selection resolves to no shape, or when the selected
    shape is locked. *)
Theorem arrow_key_ignored (e : KeyboardEvent.t) (ui : Ui) :
  isArrow (KeyboardEvent.key e) = true ->
  (inspected (editor ui) = None
   \/ exists s, inspected (editor ui) = Some s
                /\ truthy_flag (Shape.locked s) = true) ->
  editor (onKey e ui) = editor ui.
Proof.
  intros Ha Hi.
  assert (Hk : lower_is "z" "Z" (KeyboardEvent.key e) = false
               /\ lower_is "y" "Y" (KeyboardEvent.key e) = false
               /\ (String.eqb (KeyboardEvent.key e) "Delete"
                   || String.eqb (KeyboardEvent.key e) "Backspace")%bool = false)
    by (destruct (isArrow_cases _ Ha) as [-> | [-> | [-> | ->]]]; done).
  destruct Hk as (Hz & Hy & Hd).
  unfold onKey, inspected in *. rewrite Hz, Hy, !andb_false_r.
  destruct (truthy_id (selectedId (editor ui))) as [sel|].
  - rewrite Hd, Ha. destruct Hi as [->|(s & -> & ->)]; reflexivity.
  - unfold spaceDown. now destruct (String.eqb (KeyboardEvent.code e) "Space").
Qed.

(** The right arrow on the rectangle of [demo], with snapping off. *)
Lemma arrow_key_nudges_witness :
  exists s', inspected (editor (onKey arrowRight looseUi)) = Some s'
             /\ Shape.x s' = (200 + 1)%Q /\ Shape.y s' = (150 + 0)%Q.
Proof.
  destruct (arrow_key_nudges arrowRight looseUi (newRect "k3x9q2a"))
    as (s' & Hi & _ & Hr & _); try reflexivity.
  exists s'. split; [exact Hi|]. exact (Hr eq_refl).
Defined.

(** Shift and the right arrow on the rectangle at (192, 160), on the default
    grid of 32. *)
Lemma arrow_key_swallowed_by_grid_witness :
  exists s', inspected (editor (onKey shiftArrowRight griddedUi)) = Some s'
             /\ (Shape.x s' == 192)%Q.
Proof.
  destruct (arrow_key_swallowed_by_grid shiftArrowRight griddedUi
              (spread (newRect "k3x9q2a") (position 192 160)) 6 5)
    as (s' & Hi & Hx & _); try reflexivity.
  exists s'. split; [exact Hi|exact Hx].
Defined.

(** The right arrow on the locked rectangle. *)
Lemma arrow_key_ignored_witness :
  editor (onKey arrowRight lockedUi) = editor lockedUi.
Proof.
  apply (arrow_key_ignored arrowRight lockedUi); [reflexivity|].
  right. eexists. split; reflexivity.
Defined.

(** ** Viewport: fitting, zooming and panning *)

(** X19: over exact rational arithmetic (the rounding of the code's doubles
    is not modelled and can move these quantities by a rounding error), in a
    container of positive size [fitToScreen] gives a positive scale at which
    the slide fits the container, filling its width or its height, and an
    offset that centres the slide, with the same non-negative margin on both
    sides of each axis. *)
Theorem fitToScreen_centres_slide (st : Editor) :
  (0 < size_width (containerSize st))%Q ->
  (0 < size_height (containerSize st))%Q ->
  let w := size_width (containerSize st) in
  let h := size_height (containerSize st) in
  let sc := scale (fitToScreen st) in
  let off := offset (fitToScreen st) in
  (0 < sc)%Q
  /\ (SLIDE_W * sc <= w)%Q /\ (SLIDE_H * sc <= h)%Q
  /\ ((SLIDE_W * sc == w)%Q \/ (SLIDE_H * sc == h)%Q)
  /\ (0 <= px off)%Q /\ (0 <= py off)%Q
  /\ (px off + SLIDE_W * sc + px off == w)%Q
  /\ (py off + SLIDE_H * sc + py off == h)%Q.
Proof.
  intros Hw Hh. cbv zeta.
  assert (Hw0 : ~ (size_width (containerSize st) == 0)%Q) by lra.
  assert (Hh0 : ~ (size_height (containerSize st) == 0)%Q) by lra.
  unfold fitToScreen.
  rewrite (proj2 (falsy_number_false _) Hw0), (proj2 (falsy_number_false _) Hh0).
  simpl. unfold SLIDE_W, SLIDE_H, Qdiv.
  change (/ 1920)%Q with (1 # 1920)%Q. change (/ 1080)%Q with (1 # 1080)%Q.
  change (/ 2)%Q with (1 # 2)%Q.
  revert Hw Hh.
  generalize (size_width (containerSize st)) (size_height (containerSize st)).
  intros w h Hw Hh.
  destruct (Q.min_spec (w * (1 # 1920)) (h * (1 # 1080))) as [[Hlt E]|[Hle E]];
    set (m := Qmin (w * (1 # 1920)) (h * (1 # 1080))) in *;
    repeat split; try lra; first [left; lra|right; lra].
Qed.

(** Fitting the slide in the container of [narrow]. *)
Lemma fitToScreen_centres_slide_witness :
  (SLIDE_W * scale (fitToScreen narrow) <= 150)%Q.
Proof.
  destruct (fitToScreen_centres_slide narrow) as (_ & H & _); try reflexivity.
  exact H.
Defined.

(** X20: over exact rational arithmetic (the rounding of the code's doubles
    is not modelled), two zooms around the same anchor, neither of them
    clamped, give the scale and the offset of one zoom by the product of the
    factors; so a zoom by 1.1 and one by 0.9 do not cancel. *)
Theorem zoomBy_composes
  (st : Editor) (f1 f2 : Q) (center : option Point) (stage : Stage) :
  stageRef st = Some stage ->
  scale_in_range (scale st) ->
  scale_in_range (scale st * f1) ->
  scale_in_range (scale st * f1 * f2) ->
  let twice := zoomBy f2 center (zoomBy f1 center st) in
  let once := zoomBy (f1 * f2) center st in
  (scale twice == scale st * f1 * f2)%Q
  /\ (scale twice == scale once)%Q
  /\ point_eq (offset twice) (offset once).
Proof.
  intros Hs [H0 H0'] [H1 H1'] [H2 H2']. cbv zeta.
  assert (Hs' : stageRef (zoomBy f1 center st) = Some stage)
    by (unfold zoomBy; now rewrite Hs).
  destruct (zoomBy_mounted f2 center stage _ Hs') as [-> ->].
  destruct (zoomBy_mounted (f1 * f2) center stage st Hs) as [-> ->].
  assert (Ha : zoomAnchor center stage (zoomBy f1 center st)
               = zoomAnchor center stage st)
    by (unfold zoomAnchor, zoomBy; now rewrite Hs).
  rewrite Ha.
  destruct (zoomBy_mounted f1 center stage st Hs) as [-> ->].
  assert (E1 : (clamp (scale st * f1) (1 # 10) 4 == scale st * f1)%Q)
    by (apply clamp_inside; [reflexivity|assumption..]).
  assert (E2 : (clamp (clamp (scale st * f1) (1 # 10) 4 * f2) (1 # 10) 4
                == scale st * f1 * f2)%Q)
    by (apply clamp_inside; [now rewrite E1|assumption..]).
  assert (E3 : (clamp (scale st * (f1 * f2)) (1 # 10) 4 == scale st * f1 * f2)%Q)
    by (apply clamp_inside; [ring|assumption..]).
  split; [exact E2|]. split; [now rewrite E2, E3|].
  unfold point_eq, toDocument. cbn [px py].
  rewrite E2, E3, E1. clear E1 E2 E3 Ha Hs'.
  remember (scale st * f1)%Q as s1 eqn:Es1. clear Es1.
  generalize (px (zoomAnchor center stage st)) (py (zoomAnchor center stage st))
             (px (offset st)) (py (offset st)).
  intros ax ay ox oy. split; field; split; lra.
Qed.

(** The toolbar's zoom in and zoom out on [narrow]: together a zoom by 0.99. *)
Lemma zoomBy_composes_witness :
  (scale (zoomBy (9 # 10) None (zoomBy (11 # 10) None narrow)) == 99 # 100)%Q.
Proof.
  destruct (zoomBy_composes narrow (11 # 10) (9 # 10) None
              {| getPointerPosition := None |}) as (H & _).
  - reflexivity.
  - split; vm_compute; discriminate.
  - split; vm_compute; discriminate.
  - split; vm_compute; discriminate.
  - rewrite H. reflexivity.
Defined.

(** X21: while the stage is dragged, a mouse move shifts the offset by the
    pointer's movement and keeps the scale, so the document point under the
    pointer stays under it; the snapshot and the stacks are untouched; when
    the stage is not dragged a mouse move changes nothing. *)
Theorem mouse_pan_follows_pointer (ui : Ui) (p : Point) (mx my : Q) :
  isDraggingStage ui = true ->
  ~ (scale (editor ui) == 0)%Q ->
  let ui' := onStageDragMove (Some mx) (Some my) ui in
  point_eq
    (toDocument {| px := (px p + mx)%Q; py := (py p + my)%Q |}
                (scale (editor ui')) (offset (editor ui')))
    (toDocument p (scale (editor ui)) (offset (editor ui)))
  /\ scale (editor ui') = scale (editor ui)
  /\ timeline (editor ui') = timeline (editor ui)
  /\ (forall ui0 mx0 my0,
        isDraggingStage ui0 = false -> onStageDragMove mx0 my0 ui0 = ui0).
Proof.
  intros Hd Hs. cbv zeta. unfold onStageDragMove. rewrite Hd.
  split; [|split; [reflexivity|split; [reflexivity|]]].
  - unfold point_eq, toDocument. simpl. split; field; exact Hs.
  - intros ui0 mx0 my0 H0. now rewrite H0.
Qed.

(** Dragging the stage of [narrow] by (5, -3) under the pointer at (20, 20). *)
Lemma mouse_pan_follows_pointer_witness :
  point_eq
    (toDocument {| px := 20 + 5; py := 20 + -3 |}
       (scale (editor (onStageDragMove (Some 5%Q) (Some (-3)%Q) draggingUi)))
       (offset (editor (onStageDragMove (Some 5%Q) (Some (-3)%Q) draggingUi))))
    (toDocument {| px := 20; py := 20 |} (scale narrow) (offset narrow)).
Proof.
  apply (mouse_pan_follows_pointer draggingUi {| px := 20; py := 20 |} 5 (-3)).
  - reflexivity.
  - vm_compute. discriminate.
Defined.

Lemma touchMoves_offset (ts : list Point) (ui : Ui) (a : Point) :
  isPanMode ui = true -> lastTouchRef ui = Some a ->
  let ui' := touchMoves ts ui in
  let b := default a (last ts) in
  (px (offset (editor ui')) == px (offset (editor ui)) + (6 # 10) * (px b - px a))%Q
  /\ (py (offset (editor ui')) == py (offset (editor ui)) + (6 # 10) * (py b - py a))%Q
  /\ lastTouchRef ui' = Some b /\ isPanMode ui' = true
  /\ scale (editor ui') = scale (editor ui)
  /\ timeline (editor ui') = timeline (editor ui).
Proof.
  revert ui a. induction ts as [|t ts IH]; intros ui a Hp Hl; cbv zeta.
  - simpl. repeat split; try done; ring.
  - unfold touchMoves. simpl foldl. fold (touchMoves ts (onTouchMove [t] ui)).
    assert (Hstep : onTouchMove [t] ui
                    = setLastTouch (Some t)
                        (onEditor (moveOffset ((6 # 10) * (px t - px a))%Q
                                              ((6 # 10) * (py t - py a))%Q) ui))
      by (unfold onTouchMove; now rewrite Hp, Hl).
    destruct (IH (onTouchMove [t] ui) t) as (Hx & Hy & Hlast & Hpan & Hsc & Htl).
    { rewrite Hstep. exact Hp. }
    { now rewrite Hstep. }
    rewrite last_cons.
    replace (default a (match last ts with Some y => Some y | None => Some t end))
      with (default t (last ts)) by now destruct (last ts).
    rewrite Hx, Hy, Hlast, Hpan, Hsc, Htl, Hstep. simpl.
    repeat split; try done; ring.
Qed.

(** X22: over exact rational arithmetic (the rounding of the code's doubles
    is not modelled; there the sums along two paths can differ by a rounding
    error), in pan mode a one-finger drag shifts the offset by 0.6 of the way
    from the point where the finger went down to the point where it is now,
    whatever path it took between them; the scale, the snapshot and the
    stacks are kept exactly. *)
Theorem touch_pan_is_path_independent (ts : list Point) (ui : Ui) (a : Point) :
  isPanMode ui = true ->
  lastTouchRef ui = Some a ->
  let ui' := touchMoves ts ui in
  let b := default a (last ts) in
  (px (offset (editor ui')) == px (offset (editor ui)) + (6 # 10) * (px b - px a))%Q
  /\ (py (offset (editor ui')) == py (offset (editor ui)) + (6 # 10) * (py b - py a))%Q
  /\ scale (editor ui') = scale (editor ui)
  /\ timeline (editor ui') = timeline (editor ui).
Proof.
  intros Hp Hl.
  destruct (touchMoves_offset ts ui a Hp Hl) as (Hx & Hy & _ & _ & Hs & Ht).
  cbv zeta. repeat split; assumption.
Qed.

(** A finger that went down at (10, 10) and moves to (30, 10) and then to
    (20, 40) on [narrow]. *)
Lemma touch_pan_is_path_independent_witness :
  (px (offset (editor (touchMoves [{| px := 30; py := 10 |}; {| px := 20; py := 40 |}]
                         touchingUi)))
   == 0 + (6 # 10) * (20 - 10))%Q.
Proof.
  apply (touch_pan_is_path_independent
           [{| px := 30; py := 10 |}; {| px := 20; py := 40 |}]
           touchingUi {| px := 10; py := 10 |}); reflexivity.
Defined.

(** ** Sessions: what an event can do *)

Section SessionSteps.

Variable Number : string -> option Q.

Lemma lookup_In (prev : Snapshot) (n : nat) (s : Shape.t) :
  prev !! n = Some s -> In s prev.
Proof. intros H. apply list_elem_of_In. eapply list_elem_of_lookup_2, H. Qed.

Lemma find_In (i : string) (prev : Snapshot) (s : Shape.t) :
  Js.find (shape_id_is i) prev = Some s -> In s prev.
Proof. intros H. now destruct (find_Some _ _ _ H). Qed.

Lemma inspected_In (st : Editor) (s : Shape.t) :
  inspected st = Some s -> In s (shapes st).
Proof.
  unfold inspected. destruct (truthy_id (selectedId st)); [apply find_In|done].
Qed.

Ltac origins :=
  first
    [ apply origin_add; reflexivity
    | apply origin_delete
    | apply origin_forward | apply origin_backward
    | apply origin_front | apply origin_back
    | apply origin_update;
      [ first [ eapply lookup_In; eassumption
              | eapply find_In; eassumption
              | eapply inspected_In; eassumption ]
      | first [ apply edit_position | apply edit_transform
              | apply edit_locked | apply edit_hidden | apply edit_text
              | eapply edit_input; eassumption ] ] ].

Ltac steps :=
  first
    [ apply step_same; reflexivity
    | apply step_undo | apply step_redo
    | apply step_commit; origins
    | apply step_commit_select; origins ].

Lemma deleteSelected_doc_step (ev : Event) (st : Editor) :
  doc_step Number ev st (deleteSelected st).
Proof. unfold deleteSelected. case_match; steps. Qed.

Lemma deselect_doc_step (ev : Event) (b : bool) (st : Editor) :
  doc_step Number ev st (deselect b st).
Proof. unfold deselect. case_match; steps. Qed.

(** Every event is at most one commit, one undo or one redo, and the commit
    takes its updater from one of the callbacks. *)
Lemma handle_doc_step (ev : Event) (ui : Ui) :
  doc_step Number ev (editor ui) (editor (handle Number ev ui)).
Proof.
  destruct ev; simpl;
    unfold addRect, addCircle, addText, onImageUpload, addShape, deleteSelected,
      alignSelected, withNode, withRow, layerOp, onKey, onKeyUp, spaceDown, nudge,
      onWheel, onResize, fitToScreen, zoomBy, onStageMouseDown, onStageMouseUp,
      onStageDragMove, onTouchStart, onTouchEnd, onTouchMove, deselect,
      onGridSizeInput, onInput, onToggle, onDragEnd, onTransformEnd, onDblClick,
      onRowClick, toggleLocked, toggleHidden, updateShape, bringForward,
      sendBackward, bringToFront, sendToBack;
    repeat (simpl; case_match); simpl;
    first [steps|apply deleteSelected_doc_step|apply deselect_doc_step].
Qed.

End SessionSteps.

(** ** Sessions: invariants *)

Section Invariants.

Variable Number : string -> option Q.

Lemma doc_step_bounded (ev : Event) (st st' : Editor) :
  doc_step Number ev st st' -> stacks_bounded st -> stacks_bounded st'.
Proof.
  unfold stacks_bounded. intros Hstep [Hh Hf].
  destruct Hstep as [st' _ E1 E2| | | |].
  - now rewrite E1, E2.
  - rewrite commit_history, commit_future, lastn_length. cbn [length]. lia.
  - cbn [history future setSelectedId].
    rewrite commit_history, commit_future, lastn_length. cbn [length]. lia.
  - destruct (history st) as [|p h _] eqn:Hst using rev_ind.
    + destruct (undo_empty st Hst) as (_ & -> & ->). cbn [length]. lia.
    + destruct (undo_snoc st h p Hst) as (_ & -> & ->).
      rewrite length_app in Hh. rewrite length_take. cbn [length] in *. lia.
  - destruct (future st) as [|c f] eqn:Hst.
    + destruct (redo_empty st Hst) as (_ & -> & ->). cbn [length]. lia.
    + destruct (redo_cons st c f Hst) as (_ & -> & ->).
      rewrite lastn_length. cbn [length] in Hf. lia.
Qed.

Lemma doc_step_everywhere (G : Snapshot -> Prop) (ev : Event) (st st' : Editor) :
  (forall f, origin Number ev st f -> G (shapes st) -> G (f (shapes st))) ->
  doc_step Number ev st st' -> everywhere G st -> everywhere G st'.
Proof.
  unfold everywhere. intros HG Hstep (Hs & Hh & Hf).
  assert (Hpush : Forall G (lastn 50 (history st ++ [shapes st]))).
  { apply Forall_drop, Forall_app. split; [exact Hh|]. now constructor. }
  destruct Hstep as [st' E0 E1 E2| f Ho | f v Ho | |].
  - now rewrite E0, E1, E2.
  - rewrite commit_history. split; [now apply HG|]. split; [exact Hpush|constructor].
  - cbn [shapes history future setSelectedId]. rewrite commit_history.
    split; [now apply HG|]. split; [exact Hpush|constructor].
  - destruct (history st) as [|p h _] eqn:Hst using rev_ind.
    + destruct (undo_empty st Hst) as (-> & -> & ->). done.
    + destruct (undo_snoc st h p Hst) as (-> & -> & ->).
      apply Forall_app in Hh as [Hh Hp]. rewrite Forall_singleton in Hp.
      split; [exact Hp|]. split; [exact Hh|].
      apply Forall_take. now constructor.
  - destruct (future st) as [|c f] eqn:Hst.
    + destruct (redo_empty st Hst) as (-> & -> & ->). done.
    + destruct (redo_cons st c f Hst) as (-> & -> & ->).
      apply Forall_cons in Hf as [Hc Hf]. done.
Qed.

(** *** Sizes and kinds *)

Lemma kind_prefix_spread (b : Body) (p : Partial.t) :
  kind_prefix (spread_body b p) = kind_prefix b.
Proof. now destruct b. Qed.

Lemma kinded_spread (s : Shape.t) (p : Partial.t) : kinded s -> kinded (spread s p).
Proof.
  intros [rnd H]. exists rnd. simpl. now rewrite kind_prefix_spread.
Qed.

Lemma same_id_same_kind (s s2 : Shape.t) :
  kinded s -> kinded s2 -> Shape.id s2 = Shape.id s ->
  kind_prefix (Shape.body s2) = kind_prefix (Shape.body s).
Proof.
  intros [r H] [r2 H2] Hid. rewrite H, H2 in Hid.
  now destruct (uid_prefix_inj _ _ _ _ Hid).
Qed.

Lemma clamp_lo (v lo hi : Q) : (lo <= hi)%Q -> (lo <= clamp v lo hi)%Q.
Proof. intros H. now destruct (clamp_range v lo hi H). Qed.

Lemma clamp_hi (v lo hi : Q) : (lo <= hi)%Q -> (clamp v lo hi <= hi)%Q.
Proof. intros H. now destruct (clamp_range v lo hi H). Qed.

Ltac sized :=
  simpl in *; unfold opt_between in *;
  repeat match goal with
         | H : _ /\ _ |- _ => destruct H
         end;
  repeat split;
  first
    [ assumption
    | exact I
    | apply Q.le_max_l
    | apply clamp_lo; lra
    | apply clamp_hi; lra
    | eapply Qle_trans; [|apply Q.le_max_l]; lra
    | lra ].

(** No callback takes a size out of its range. *)
Lemma edit_sound (st : Editor) (s s2 : Shape.t) (p : Partial.t) :
  sound s -> edit Number st s p -> sound s2 -> Shape.id s2 = Shape.id s ->
  sound (spread s2 p).
Proof.
  intros [K W] He [K2 W2] Hid. split; [now apply kinded_spread|].
  pose proof (same_id_same_kind s s2 K K2 Hid) as Hk.
  simpl. clear K K2 Hid.
  destruct He as [nx ny|node|input v p Hp|b|b|v].
  - destruct (Shape.body s2); sized.
  - unfold transformPartial.
    destruct (Shape.body s), (Shape.body s2); try discriminate Hk; sized.
  - unfold inputPartial in Hp.
    destruct (Shape.body s), (Shape.body s2); try discriminate Hk;
      destruct input; try discriminate Hp; injection Hp as <-; sized.
  - destruct (Shape.body s2); sized.
  - destruct (Shape.body s2); sized.
  - destruct (Shape.body s2); sized.
Qed.

Lemma new_shape_sound (ev : Event) (s : Shape.t) :
  loaded ev -> new_shape ev = Some s -> sound s.
Proof.
  destruct ev; try discriminate; simpl; intros Hl [= <-]; split;
    try (eexists; reflexivity); simpl; unfold opt_between;
    repeat split; try lra.
  - destruct Hl as [Hw _]. apply Q.min_glb; lra.
  - destruct Hl as [_ Hh]. apply Q.min_glb; lra.
Qed.

Lemma origin_sound (ev : Event) (st : Editor) (f : ShapeUpdater) :
  loaded ev -> origin Number ev st f ->
  Forall sound (shapes st) -> Forall sound (f (shapes st)).
Proof.
  intros Hl Ho Hs. destruct Ho as [s Hn|s p Hin He|sel|i|i|i|i].
  - apply Forall_app. split; [exact Hs|]. constructor; [|constructor].
    eapply new_shape_sound; eassumption.
  - rewrite Forall_forall in Hs.
    assert (Hsound : sound s) by apply Hs, list_elem_of_In, Hin.
    unfold updateShape_updater. apply Forall_forall. intros x Hx.
    apply list_elem_of_In, in_map_iff in Hx as (s2 & <- & Hs2).
    assert (H2 : sound s2) by apply Hs, list_elem_of_In, Hs2.
    destruct (shape_id_is (Shape.id s) s2) eqn:Hid; [|exact H2].
    apply shape_id_is_true in Hid. now apply (edit_sound st s).
  - rewrite Forall_forall in *. intros x Hx. apply Hs.
    now apply list_elem_of_filter in Hx as [_ Hx].
  - now rewrite (proj1 (layer_updaters_perm i (shapes st))).
  - now rewrite (proj1 (proj2 (layer_updaters_perm i (shapes st)))).
  - now rewrite (proj1 (proj2 (proj2 (layer_updaters_perm i (shapes st))))).
  - now rewrite (proj2 (proj2 (proj2 (layer_updaters_perm i (shapes st))))).
Qed.

End Invariants.

Section Sessions.

Variable Number : string -> option Q.

Lemma origin_unique (ui : Ui) (ev : Event) (f : ShapeUpdater) :
  fresh ui ev -> origin Number ev (editor ui) f ->
  unique_ids (shapes (editor ui)) -> unique_ids (f (shapes (editor ui))).
Proof.
  unfold unique_ids, fresh. intros Hfresh Ho Hnd.
  destruct Ho as [s Hn|s p Hin He|sel|i|i|i|i].
  - rewrite Hn in Hfresh. unfold addShape_updater. rewrite map_app. simpl.
    apply NoDup_app. split; [exact Hnd|]. split; [|apply NoDup_singleton].
    intros x Hx Hx'. apply list_elem_of_singleton in Hx'. now subst.
  - now rewrite ids_updateShape.
  - apply (sublist_NoDup _ (map Shape.id (shapes (editor ui))) Hnd).
    apply (fmap_sublist Shape.id), sublist_filter.
  - change (@map Shape.t string) with (@fmap list _ Shape.t string) in *.
    now rewrite (proj1 (layer_updaters_perm i _)).
  - change (@map Shape.t string) with (@fmap list _ Shape.t string) in *.
    now rewrite (proj1 (proj2 (layer_updaters_perm i _))).
  - change (@map Shape.t string) with (@fmap list _ Shape.t string) in *.
    now rewrite (proj1 (proj2 (proj2 (layer_updaters_perm i _)))).
  - change (@map Shape.t string) with (@fmap list _ Shape.t string) in *.
    now rewrite (proj2 (proj2 (proj2 (layer_updaters_perm i _)))).
Qed.

Ltac crunch :=
  simpl;
  unfold addRect, addCircle, addText, onImageUpload, addShape, deleteSelected,
    alignSelected, withNode, withRow, layerOp, onKey, onKeyUp, spaceDown, nudge,
    onWheel, onResize, fitToScreen, zoomBy, onStageMouseDown, onStageMouseUp,
    onStageDragMove, onTouchStart, onTouchEnd, onTouchMove, deselect,
    onGridSizeInput, onInput, onToggle, onDragEnd, onTransformEnd, onDblClick,
    onRowClick, toggleLocked, toggleHidden, updateShape, bringForward,
    sendBackward, bringToFront, sendToBack, commit, undo, redo;
  repeat (simpl; case_match); simpl;
  unfold deleteSelected, deselect, commit;
  repeat (simpl; case_match); simpl.

Lemma handle_gridSize (ev : Event) (ui : Ui) :
  gridSize (editor (handle Number ev ui)) = gridSize (editor ui)
  \/ exists v, gridSize (editor (handle Number ev ui))
               = clamp (toNum Number v (gridSize (editor ui))) 2 256.
Proof.
  destruct ev; crunch; first [left; reflexivity|right; eexists; reflexivity].
Qed.

(** X23: in every interface that a session reaches from the first render,
    whatever the events, each of the two stacks holds at most 50 snapshots. *)
Theorem session_stacks_bounded (ui : Ui) :
  reachable Number (fun _ _ => True) ui -> stacks_bounded (editor ui).
Proof.
  induction 1 as [|ui ev _ IH _].
  - split; simpl; lia.
  - eapply doc_step_bounded; [apply handle_doc_step|exact IH].
Qed.

(** X24: in every interface that a session reaches, the grid size lies in
    [2, 256], whatever was typed in its input; so [snap] never divides by
    zero. *)
Theorem session_grid_in_range (ui : Ui) :
  reachable Number (fun _ _ => True) ui ->
  grid_in_range (editor ui) /\ ~ (gridSize (editor ui) == 0)%Q.
Proof.
  intros Hr. assert (H : grid_in_range (editor ui)).
  { induction Hr as [|ui ev _ IH _].
    - split; reflexivity || (vm_compute; discriminate).
    - unfold grid_in_range in *.
      destruct (handle_gridSize ev ui) as [->|[v ->]]; [exact IH|].
      apply clamp_range. lra. }
  split; [exact H|]. destruct H. lra.
Qed.

(** X25: in every interface that a session reaches, when each uploaded image
    had loaded with a size of at least one pixel, every shape of the current
    snapshot and of every snapshot on the two stacks has an identifier with
    the prefix of its kind, sides, radius and font size of at least 1, a text
    width (if any) of at least 50, a stroke width (if any) in [0, 40] and a
    corner radius (if any) in [0, 200]. *)
Theorem session_shapes_sound (ui : Ui) :
  reachable Number (fun _ ev => loaded ev) ui ->
  everywhere (Forall sound) (editor ui).
Proof.
  induction 1 as [|ui ev _ IH Hl].
  - repeat split; constructor.
  - apply (doc_step_everywhere Number (Forall sound) ev (editor ui));
      [|apply handle_doc_step|exact IH].
    intros f Ho. now apply (origin_sound Number ev).
Qed.

(** X26: in every interface that a session reaches, when [uid] never drew an
    identifier that the current snapshot already held, the identifiers are
    pairwise distinct in the current snapshot and in every snapshot on the
    two stacks. *)
Theorem session_ids_unique (ui : Ui) :
  reachable Number fresh ui -> everywhere unique_ids (editor ui).
Proof.
  induction 1 as [|ui ev _ IH Hf].
  - repeat split; constructor.
  - apply (doc_step_everywhere Number unique_ids ev (editor ui));
      [|apply handle_doc_step|exact IH].
    intros f Ho. now apply (origin_unique ui ev).
Qed.

(** X27: the events of the viewport, of the pointer gestures on the stage, of
    the selection and of the grid settings leave the snapshot and both stacks
    as they are; every other event leaves the scale, the offset, the grid
    settings, the container size and the stage-drag flag as they are. *)
Theorem events_keep_apart (ev : Event) (ui : Ui) :
  (is_view_event ev = true ->
   timeline (editor (handle Number ev ui)) = timeline (editor ui)
   /\ shapes (editor (handle Number ev ui)) = shapes (editor ui))
  /\ (is_view_event ev = false ->
      scale (editor (handle Number ev ui)) = scale (editor ui)
      /\ offset (editor (handle Number ev ui)) = offset (editor ui)
      /\ gridEnabled (editor (handle Number ev ui)) = gridEnabled (editor ui)
      /\ gridSize (editor (handle Number ev ui)) = gridSize (editor ui)
      /\ containerSize (editor (handle Number ev ui)) = containerSize (editor ui)
      /\ isDraggingStage (handle Number ev ui) = isDraggingStage ui).
Proof.
  split; intros Hv; destruct ev; try discriminate Hv; unfold timeline;
    crunch; repeat split.
Qed.

End Sessions.

(** The sample session: a rectangle added, the grid size set, the rectangle
    dragged, raised and the raise undone. *)
Lemma sampleSession_reachable (ok : Ui -> Event -> Prop) :
  ok initialUi (EvAddRect "k3x9q2a") ->
  (forall ui ev, ev <> EvAddRect "k3x9q2a" -> new_shape ev = None -> ok ui ev) ->
  reachable parseThree ok (run parseThree sampleSession initialUi).
Proof.
  intros H0 Hok. unfold sampleSession, run. cbn [foldl].
  repeat (apply reach_event; [|try (apply Hok; [discriminate|reflexivity])]).
  - apply reach_initial.
  - exact H0.
Qed.

Lemma session_stacks_bounded_witness :
  stacks_bounded (editor (run parseThree sampleSession initialUi)).
Proof.
  apply (session_stacks_bounded parseThree).
  apply sampleSession_reachable; intros; exact I.
Defined.

Lemma session_grid_in_range_witness :
  grid_in_range (editor (run parseThree sampleSession initialUi)).
Proof.
  apply (session_grid_in_range parseThree).
  apply sampleSession_reachable; intros; exact I.
Defined.

Lemma session_shapes_sound_witness :
  everywhere (Forall sound) (editor (run parseThree sampleSession initialUi)).
Proof.
  apply (session_shapes_sound parseThree).
  apply sampleSession_reachable.
  - exact I.
  - intros ui ev _ Hn. destruct ev; try discriminate Hn; exact I.
Defined.

Lemma session_ids_unique_witness :
  everywhere unique_ids (editor (run parseThree sampleSession initialUi)).
Proof.
  apply (session_ids_unique parseThree).
  apply sampleSession_reachable.
  - unfold fresh. simpl. apply not_elem_of_nil.
  - intros ui ev _ Hn. unfold fresh. now rewrite Hn.
Defined.

Lemma events_keep_apart_witness :
  timeline (editor (handle parseThree EvZoomIn demoUi)) = timeline (editor demoUi)
  /\ offset (editor (handle parseThree EvDelete demoUi)) = offset (editor demoUi).
Proof.
  split.
  - apply (proj1 (events_keep_apart parseThree EvZoomIn demoUi)). reflexivity.
  - apply (proj2 (events_keep_apart parseThree EvDelete demoUi)). reflexivity.
Defined.

(** ** Selection after an add *)

Lemma find_snoc (i : string) (prev : Snapshot) (s : Shape.t) :
  Js.find (shape_id_is i) (prev ++ [s])
  = match Js.find (shape_id_is i) prev with
    | Some s0 => Some s0
    | None => if shape_id_is i s then Some s else None
    end.
Proof.
  induction prev as [|a prev IH]; simpl; [done|].
  now destruct (shape_id_is i a).
Qed.

(** X28: after a shape is added, the inspector shows it when its identifier
    was not yet in the snapshot; when [uid] drew an identifier that the
    snapshot already held, the inspector shows the older shape with that
    identifier instead. *)
Theorem add_selects (s : Shape.t) (st : Editor) :
  Shape.id s <> ""%string ->
  (absent (Shape.id s) (shapes st) -> inspected (addShape s st) = Some s)
  /\ (forall s0, Js.find (shape_id_is (Shape.id s)) (shapes st) = Some s0 ->
                 inspected (addShape s st) = Some s0).
Proof.
  intros Hne.
  assert (Hi : inspected (addShape s st)
               = Js.find (shape_id_is (Shape.id s)) (shapes st ++ [s])).
  { unfold inspected. simpl.
    destruct (String.eqb_spec (Shape.id s) ""); [contradiction|reflexivity]. }
  rewrite Hi, find_snoc. split.
  - intros Ha.
    assert (Hf : Js.find (shape_id_is (Shape.id s)) (shapes st) = None).
    { destruct (Js.find _ (shapes st)) as [s0|] eqn:Hf; [|done].
      destruct (find_split _ _ _ Hf) as (l1 & l2 & Hp & _ & Hs0).
      unfold absent in Ha. rewrite Hp in Ha.
      apply Forall_app in Ha as [_ Ha]. apply Forall_cons in Ha as [Ha _].
      congruence. }
    rewrite Hf. now rewrite (proj2 (shape_id_is_true _ _) eq_refl).
  - intros s0 ->. reflexivity.
Qed.

(** A second rectangle for which [uid] draws the digits of the first: the
    inspector still shows the first one. *)
Lemma add_selects_witness :
  inspected (addRect "k3x9q2a" (updateShape "rect_k3x9q2a" (position 0 0) demo))
  = Some (spread (newRect "k3x9q2a") (position 0 0)).
Proof.
  assert (Hne : Shape.id (newRect "k3x9q2a") <> ""%string) by discriminate.
  apply (proj2 (add_selects (newRect "k3x9q2a")
                  (updateShape "rect_k3x9q2a" (position 0 0) demo) Hne)).
  reflexivity.
Defined.
